(** * arduino-snake-game: a shallow embedding of the sketch and its properties

    The sketch [arduino-snake-game.ino] keeps three objects: a [Matrix]
    (buffered 8x8 LED display), a [Snake] (an array of points with a length
    counter) and a [Food] (an array of points with a counter).  [loop()] moves
    the snake by one cell per call.

    Modelling decisions.
    - C++ [int] and [long] values are [Z].  With the constants of the sketch
      every value stays far from the limits of the 16-bit [int] and the
      32-bit [long] of the board (coordinates below twice the grid size,
      squared joystick readings below 2^19), so no overflow arises.
    - The [point] arrays of [Snake] and [Food] are lists of fixed length;
      an access outside the array is undefined behaviour in C++ and is the
      outcome [Fault] here.  A remainder by zero is a [Fault] as well.
    - [Food::placeFood] loops until enough random points were accepted; the
      model counts loop iterations and answers [OutOfFuel] when the bound is
      reached.
    - [random()] is the Arduino library: the model reads the points it
      delivers from a stream [rnd : nat -> point], [rnd k] being the point
      built from the k-th pair of calls.
    - The display buffer never influences the game; a pixel outside the
      buffer is dropped.  [flush()], [delay()] and the LED driver are outside
      the model; the buzzer pin is a boolean. *)

From Stdlib Require Import ZArith Lia List Bool.
From stdpp Require Import base tactics option list.

Local Open Scope Z_scope.

(** ** Outcomes of a computation *)

Inductive result (A : Type) : Type :=
| Ok (a : A)
| Fault
| OutOfFuel.

Arguments Ok {A} a.
Arguments Fault {A}.
Arguments OutOfFuel {A}.

Global Instance result_ret : MRet result := @Ok.

Global Instance result_bind : MBind result := fun A B f m =>
  match m with
  | Ok a => f a
  | Fault => Fault
  | OutOfFuel => OutOfFuel
  end.

(** [a[i]] as an rvalue. *)
Definition rd {A : Type} (a : list A) (i : Z) : result A :=
  if 0 <=? i then
    match a !! Z.to_nat i with
    | Some v => Ok v
    | None => Fault
    end
  else Fault.

(** [a[i] = v]. *)
Definition wr {A : Type} (a : list A) (i : Z) (v : A) : result (list A) :=
  if (0 <=? i) && (i <? Z.of_nat (length a)) then Ok (<[Z.to_nat i := v]> a)
  else Fault.

(** [a % b] on [int]: the remainder of the division that truncates. *)
Definition c_rem (a b : Z) : result Z :=
  if b =? 0 then Fault else Ok (Z.rem a b).

(** ** struct point *)

Record point : Type := Point { x : Z; y : Z }.

Definition point_add (p other : point) : point :=
  {| x := x p + x other; y := y p + y other |}.

(** [operator==] *)
Definition point_eqb (p other : point) : bool :=
  (x p =? x other) && (y p =? y other).

Global Instance point_eq_dec : EqDecision point.
Proof. solve_decision. Defined.

(** The content of a slot of a [new point[n]] array before its first write. *)
Definition junk : point := {| x := 0; y := 0 |}.

(** ** enum Direction *)

Inductive Direction : Type := LEFT | UP | RIGHT | DOWN.

Global Instance Direction_eq_dec : EqDecision Direction.
Proof. solve_decision. Defined.

(** The integer value of an enumerator. *)
Definition Direction_index (d : Direction) : Z :=
  match d with
  | LEFT => 0
  | UP => 1
  | RIGHT => 2
  | DOWN => 3
  end.

Definition makeDirectionVector (dir : Direction) : point :=
  match dir with
  | LEFT => {| x := -1; y := 0 |}
  | UP => {| x := 0; y := -1 |}
  | RIGHT => {| x := 1; y := 0 |}
  | DOWN => {| x := 0; y := 1 |}
  end.

(** ** class Matrix *)

Module Matrix.

Record t : Type := Make {
  m_rows : Z;
  m_columns : Z;
  m_display : list Z
}.

(** [memset(m_display, 0, ...)] *)
Definition clear (m : t) : t :=
  {| m_rows := m_rows m; m_columns := m_columns m;
     m_display := replicate (Z.to_nat (m_rows m)) 0 |}.

(** [Matrix(rows, columns)]: a buffer of [rows] ints, cleared. *)
Definition new (rows columns : Z) : t :=
  clear {| m_rows := rows; m_columns := columns;
           m_display := replicate (Z.to_nat rows) 0 |}.

(** [m_display[p.y] |= mask] or [m_display[p.y] &= ~mask]. *)
Definition setPixel (m : t) (p : point) (value : bool) : t :=
  let mask := Z.shiftl 1 (m_rows m - x p - 1) in
  let row (v : Z) := if value then Z.lor v mask else Z.land v (Z.lnot mask) in
  {| m_rows := m_rows m; m_columns := m_columns m;
     m_display := if 0 <=? y p then alter row (Z.to_nat (y p)) (m_display m)
                  else m_display m |}.

Definition getRowsCount (m : t) : Z := m_rows m.
Definition getColumnsCount (m : t) : Z := m_columns m.

End Matrix.

(** ** class Snake *)

Module Snake.

Record t : Type := Make {
  m_currentLength : Z;
  m_snake : list point
}.

(** The loop of the constructor, at index [i] with [todo] rounds left. *)
Fixpoint new_loop (canvas : Matrix.t) (arr : list point) (currPos directionVector : point)
    (i : Z) (todo : nat) : result (Matrix.t * list point) :=
  match todo with
  | O => Ok (canvas, arr)
  | S todo' =>
      arr' ← wr arr i currPos;
      new_loop (Matrix.setPixel canvas currPos true) arr'
               (point_add currPos directionVector) directionVector (i + 1) todo'
  end.

(** [Snake(canvas, initLength, maxLength, start, dir)] *)
Definition new (canvas : Matrix.t) (initLength maxLength : Z) (start : point)
    (dir : Direction) : result (Matrix.t * t) :=
  '(canvas', arr) ← new_loop canvas (replicate (Z.to_nat (maxLength + 1)) junk)
                      start (makeDirectionVector dir) 0 (Z.to_nat initLength);
  Ok (canvas', {| m_currentLength := initLength; m_snake := arr |}).

(** The cells the snake occupies, tail first: the first [m_currentLength]
    slots of the array. *)
Definition cells (s : t) : list point := take (Z.to_nat (m_currentLength s)) (m_snake s).

(** The capacity of the array. *)
Definition capacity (s : t) : Z := Z.of_nat (length (m_snake s)).

Definition getHead (s : t) : result point := rd (m_snake s) (m_currentLength s - 1).
Definition getTail (s : t) : result point := rd (m_snake s) 0.
Definition getLength (s : t) : Z := m_currentLength s.

Definition extend (canvas : Matrix.t) (s : t) (dir : Direction) : result (Matrix.t * t) :=
  head ← getHead s;
  let head := point_add head (makeDirectionVector dir) in
  let head := point_add head {| x := Matrix.getColumnsCount canvas;
                                y := Matrix.getRowsCount canvas |} in
  hx ← c_rem (x head) (Matrix.getColumnsCount canvas);
  hy ← c_rem (y head) (Matrix.getRowsCount canvas);
  let head := {| x := hx; y := hy |} in
  arr ← wr (m_snake s) (m_currentLength s) head;
  Ok (Matrix.setPixel canvas head true,
      {| m_currentLength := m_currentLength s + 1; m_snake := arr |}).

(** [for (i = 0; i < m_currentLength; i++) m_snake[i] = m_snake[i + 1];] *)
Fixpoint cut_loop (arr : list point) (i : Z) (todo : nat) : result (list point) :=
  match todo with
  | O => Ok arr
  | S todo' =>
      v ← rd arr (i + 1);
      arr' ← wr arr i v;
      cut_loop arr' (i + 1) todo'
  end.

Definition cut (canvas : Matrix.t) (s : t) : result (Matrix.t * t) :=
  tail ← getTail s;
  let canvas' := Matrix.setPixel canvas tail false in
  arr ← cut_loop (m_snake s) 0 (Z.to_nat (m_currentLength s));
  Ok (canvas', {| m_currentLength := m_currentLength s - 1; m_snake := arr |}).

Fixpoint isOccupied_loop (arr : list point) (p : point) (i : Z) (todo : nat) : result bool :=
  match todo with
  | O => Ok false
  | S todo' =>
      c ← rd arr i;
      if point_eqb p c then Ok true else isOccupied_loop arr p (i + 1) todo'
  end.

Definition isOccupied (s : t) (p : point) : result bool :=
  isOccupied_loop (m_snake s) p 0 (Z.to_nat (m_currentLength s)).

Fixpoint checkSelfCollision_loop (arr : list point) (head : point) (i : Z) (todo : nat)
    : result bool :=
  match todo with
  | O => Ok false
  | S todo' =>
      c ← rd arr i;
      if point_eqb c head then Ok true else checkSelfCollision_loop arr head (i + 1) todo'
  end.

Definition checkSelfCollision (s : t) : result bool :=
  head ← getHead s;
  checkSelfCollision_loop (m_snake s) head 0 (Z.to_nat (m_currentLength s - 1)).

End Snake.

(** ** class Food *)

Module Food.

Record t : Type := Make {
  m_foodCount : Z;
  m_foodPoints : list point
}.

(** The active food cells: the first [m_foodCount] slots of the array. *)
Definition cells (f : t) : list point := take (Z.to_nat (m_foodCount f)) (m_foodPoints f).

(** The capacity of the array. *)
Definition capacity (f : t) : Z := Z.of_nat (length (m_foodPoints f)).

(** [Food(canvas, maxFoodCount)] *)
Definition new (maxFoodCount : Z) : t :=
  {| m_foodCount := 0; m_foodPoints := replicate (Z.to_nat maxFoodCount) junk |}.

Fixpoint isOccupied_loop (arr : list point) (p : point) (i : Z) (todo : nat) : result bool :=
  match todo with
  | O => Ok false
  | S todo' =>
      c ← rd arr i;
      if point_eqb c p then Ok true else isOccupied_loop arr p (i + 1) todo'
  end.

Definition isOccupied (f : t) (p : point) : result bool :=
  isOccupied_loop (m_foodPoints f) p 0 (Z.to_nat (m_foodCount f)).

(** [while (true) { ... }] of [placeFood], run for at most [fuel] rounds.
    [drawn] counts the points taken from the random stream so far. *)
Fixpoint placeFood (fuel : nat) (rnd : nat -> point) (canvas : Matrix.t) (snake : Snake.t)
    (f : t) (numToPlace : Z) (drawn : nat) : result (Matrix.t * t * nat) :=
  match fuel with
  | O => OutOfFuel
  | S fuel' =>
      let p := rnd drawn in
      onSnake ← Snake.isOccupied snake p;
      free ← (if onSnake : bool then Ok false
              else onFood ← isOccupied f p; Ok (negb onFood));
      if free : bool then
        arr ← wr (m_foodPoints f) (m_foodCount f) p;
        let f' := {| m_foodCount := m_foodCount f + 1; m_foodPoints := arr |} in
        let numToPlace' := numToPlace - 1 in
        let canvas' := Matrix.setPixel canvas p true in
        if numToPlace' <=? 0 then Ok (canvas', f', S drawn)
        else placeFood fuel' rnd canvas' snake f' numToPlace' (S drawn)
      else placeFood fuel' rnd canvas snake f numToPlace (S drawn)
  end.

(** The loop of [tryEat], at index [i] with [todo] rounds left. *)
Fixpoint tryEat_loop (f : t) (p : point) (i : Z) (todo : nat) : result (bool * t) :=
  match todo with
  | O => Ok (false, f)
  | S todo' =>
      c ← rd (m_foodPoints f) i;
      if point_eqb c p then
        last ← rd (m_foodPoints f) (m_foodCount f - 1);
        arr ← wr (m_foodPoints f) i last;
        Ok (true, {| m_foodCount := m_foodCount f - 1; m_foodPoints := arr |})
      else tryEat_loop f p (i + 1) todo'
  end.

Definition tryEat (f : t) (p : point) : result (bool * t) :=
  tryEat_loop f p 0 (Z.to_nat (m_foodCount f)).

Definition getCount (f : t) : Z := m_foodCount f.

End Food.

(** ** Game parameters *)

Record Config : Type := {
  ROWS : Z;
  COLUMNS : Z;
  MAX_SNAKE_LENGTH : Z;
  INIT_SNAKE_LENGTH : Z;
  FOOD_POINTS : Z;
  REFILL_IMMEDIATELY : bool;
  JOYSTICK_THRESHOLD : Z;
  BLINK_FREQUENCY : Z
}.

(** The constants as the sketch sets them. *)
Definition sketch : Config := {|
  ROWS := 8;
  COLUMNS := 8;
  MAX_SNAKE_LENGTH := 12;
  INIT_SNAKE_LENGTH := 2;
  FOOD_POINTS := 2;
  REFILL_IMMEDIATELY := true;
  JOYSTICK_THRESHOLD := 50;
  BLINK_FREQUENCY := 2
|}.

(** ** Game variables and functions *)

(** The globals [matrix], [snake], [food] and [direct], the level of the
    buzzer pin, and the number of points drawn from the random stream. *)
Record Game : Type := {
  matrix : Matrix.t;
  snake : Snake.t;
  food : Food.t;
  direct : Direction;
  buzzer : bool;
  drawn : nat
}.

(** How a call of [loop()] ends: by falling through to the blink delay, or in
    [playLose()], or in [playWin()]. *)
Inductive Outcome : Type := Running | Lost | Won.

Section Sketch.

Context (cfg : Config).

(** [initGame()]: new objects replace the old ones; the snake is laid out
    along the current value of [direct]. *)
Definition initGame (dir : Direction) : result (Matrix.t * Snake.t * Food.t) :=
  let m := Matrix.new (ROWS cfg) (COLUMNS cfg) in
  '(m', s) ← Snake.new m (INIT_SNAKE_LENGTH cfg) (MAX_SNAKE_LENGTH cfg)
               {| x := COLUMNS cfg - 1; y := 0 |} dir;
  Ok (m', s, Food.new (FOOD_POINTS cfg)).

(** [readDirection(defaultDirection)], on the two analogue readings. *)
Definition readDirection (joystick : Z * Z) (defaultDirection : Direction) : Direction :=
  let xPin := fst joystick - 512 in
  let yPin := snd joystick - 512 in
  let inputLength := xPin * xPin + yPin * yPin in
  if inputLength >? JOYSTICK_THRESHOLD cfg * JOYSTICK_THRESHOLD cfg then
    if Z.abs xPin >? Z.abs yPin then
      if xPin >? 0 then LEFT else RIGHT
    else
      if yPin >? 0 then UP else DOWN
  else defaultDirection.

(** [if ((newDirect - direct) % 2) direct = newDirect;] *)
Definition steer (dir newDirect : Direction) : Direction :=
  if Z.rem (Direction_index newDirect - Direction_index dir) 2 =? 0 then dir
  else newDirect.

(** [setup()], after the pin and seed lines. *)
Definition setup (fuel : nat) (rnd : nat -> point) : result Game :=
  '(m, s, f) ← initGame DOWN;
  '(m', f', n) ← Food.placeFood fuel rnd m s f (FOOD_POINTS cfg) 0%nat;
  Ok {| matrix := m'; snake := s; food := f'; direct := DOWN;
        buzzer := false; drawn := n |}.

(** First part of [loop()]: the heading, [extend] and then either the eaten
    food or [cut]. *)
Definition advance (joystick : Z * Z) (g : Game) : result (Game * bool) :=
  let newDirect := readDirection joystick (direct g) in
  let dir := steer (direct g) newDirect in
  '(m, s) ← Snake.extend (matrix g) (snake g) dir;
  head ← Snake.getHead s;
  '(eaten, f) ← Food.tryEat (food g) head;
  if eaten : bool then
    Ok ({| matrix := m; snake := s; food := f; direct := dir;
           buzzer := true; drawn := drawn g |}, true)
  else
    '(m', s') ← Snake.cut m s;
    Ok ({| matrix := m'; snake := s'; food := f; direct := dir;
           buzzer := buzzer g; drawn := drawn g |}, false).

(** The argument of the [placeFood] call of [loop()], if it is reached. *)
Definition refill_request (f : Food.t) : option Z :=
  if REFILL_IMMEDIATELY cfg then
    if Food.getCount f <? FOOD_POINTS cfg then Some (FOOD_POINTS cfg - Food.getCount f)
    else None
  else
    if Food.getCount f =? 0 then Some (FOOD_POINTS cfg) else None.

(** Second part of [loop()]: refill the food. *)
Definition refill (fuel : nat) (rnd : nat -> point) (g : Game) : result Game :=
  match refill_request (food g) with
  | Some numToPlace =>
      '(m, f, n) ← Food.placeFood fuel rnd (matrix g) (snake g) (food g) numToPlace (drawn g);
      Ok {| matrix := m; snake := snake g; food := f; direct := direct g;
            buzzer := buzzer g; drawn := n |}
  | None => Ok g
  end.

(** The blink loop: [NUM_HALF_BLINKS] rounds that set the head pixel to
    [isHeadVisible] and flip the flag. *)
Fixpoint blink_loop (m : Matrix.t) (s : Snake.t) (isHeadVisible : bool) (todo : nat)
    : result Matrix.t :=
  match todo with
  | O => Ok m
  | S todo' =>
      head ← Snake.getHead s;
      blink_loop (Matrix.setPixel m head isHeadVisible) s (negb isHeadVisible) todo'
  end.

(** [curtainAnimation()], the inner loop over the columns of row [i]. *)
Fixpoint curtain_row (m : Matrix.t) (i j : Z) (todo : nat) : Matrix.t :=
  match todo with
  | O => m
  | S todo' =>
      let m1 := if i =? 0 then m else Matrix.setPixel m {| x := j; y := i - 1 |} false in
      curtain_row (Matrix.setPixel m1 {| x := j; y := i |} true) i (j + 1) todo'
  end.

Fixpoint curtain_rows (m : Matrix.t) (i : Z) (todo : nat) : Matrix.t :=
  match todo with
  | O => m
  | S todo' =>
      curtain_rows (curtain_row m i 0 (Z.to_nat (Matrix.getColumnsCount m))) (i + 1) todo'
  end.

Definition curtainAnimation (m : Matrix.t) : Matrix.t :=
  curtain_rows m 0 (Z.to_nat (Matrix.getRowsCount m)).

(** [playLose()] and [playWin()]: the melody leaves the buzzer low, the
    curtain is drawn on the old matrix, and [initGame()] replaces it. *)
Definition playLose (g : Game) : result Game :=
  let _curtain := curtainAnimation (matrix g) in
  '(m, s, f) ← initGame (direct g);
  Ok {| matrix := m; snake := s; food := f; direct := direct g;
        buzzer := false; drawn := drawn g |}.

Definition playWin (g : Game) : result Game :=
  let _curtain := curtainAnimation (matrix g) in
  '(m, s, f) ← initGame (direct g);
  Ok {| matrix := m; snake := s; food := f; direct := direct g;
        buzzer := false; drawn := drawn g |}.

(** Last part of [loop()]: the lose and win checks, else the blink delay. *)
Definition finish (g : Game) : result (Game * Outcome) :=
  collision ← Snake.checkSelfCollision (snake g);
  if collision : bool then
    g' ← playLose g; Ok (g', Lost)
  else if Snake.getLength (snake g) =? MAX_SNAKE_LENGTH cfg then
    g' ← playWin g; Ok (g', Won)
  else
    m ← blink_loop (matrix g) (snake g) false (Z.to_nat (2 * BLINK_FREQUENCY cfg));
    Ok ({| matrix := m; snake := snake g; food := food g; direct := direct g;
           buzzer := false; drawn := drawn g |}, Running).

(** [loop()] *)
Definition loop (fuel : nat) (rnd : nat -> point) (joystick : Z * Z) (g : Game)
    : result (Game * Outcome) :=
  '(g1, _) ← advance joystick g;
  g2 ← refill fuel rnd g1;
  finish g2.

End Sketch.

(** ** Vocabulary of the statements *)

(** A point of the playfield of [canvas]. *)
Definition in_grid (canvas : Matrix.t) (p : point) : Prop :=
  0 <= x p < Matrix.getColumnsCount canvas /\ 0 <= y p < Matrix.getRowsCount canvas.

(** A point that neither the snake nor the food occupies. *)
Definition unoccupied (s : Snake.t) (f : Food.t) (p : point) : Prop :=
  (p ∉ Snake.cells s) /\ (p ∉ Food.cells f).

Global Instance unoccupied_dec (s : Snake.t) (f : Food.t) (p : point) :
  Decision (unoccupied s f p).
Proof. unfold unoccupied. apply _. Defined.

(** The food after [p] was stored in the slot behind the active ones. *)
Definition Food_put (f : Food.t) (p : point) : Food.t :=
  {| Food.m_foodCount := Food.m_foodCount f + 1;
     Food.m_foodPoints := <[Z.to_nat (Food.m_foodCount f) := p]> (Food.m_foodPoints f) |}.

(** All points of the playfield, column by column. *)
Definition grid_points (canvas : Matrix.t) : list point :=
  cx ← seqZ 0 (Matrix.getColumnsCount canvas);
  (fun cy => {| x := cx; y := cy |}) <$> seqZ 0 (Matrix.getRowsCount canvas).

(** The points of the playfield that are free of snake and food. *)
Definition free_cells (canvas : Matrix.t) (s : Snake.t) (f : Food.t) : list point :=
  filter (unoccupied s f) (grid_points canvas).

(** The states in which a call of [loop()] can start: what [initGame()]
    builds, what [setup()] leaves, and what a call of [loop()] leaves. *)
Inductive boundary (cfg : Config) : Game -> Prop :=
| boundary_init (dir : Direction) (level : bool) (n : nat)
      (m : Matrix.t) (s : Snake.t) (f : Food.t) :
    initGame cfg dir = Ok (m, s, f) ->
    boundary cfg {| matrix := m; snake := s; food := f; direct := dir;
                    buzzer := level; drawn := n |}
| boundary_setup (fuel : nat) (rnd : nat -> point) (g : Game) :
    setup cfg fuel rnd = Ok g ->
    boundary cfg g
| boundary_loop (fuel : nat) (rnd : nat -> point) (joystick : Z * Z)
      (g g' : Game) (o : Outcome) :
    boundary cfg g ->
    loop cfg fuel rnd joystick g = Ok (g', o) ->
    boundary cfg g'.

(** The values [getLength()] has in the course of one call of [loop()] that
    starts in [g]: on entry, after [extend], after the eaten food or [cut],
    after the refill (where the checks run), and on return. *)
Inductive length_during (cfg : Config) (fuel : nat) (rnd : nat -> point)
    (joystick : Z * Z) (g : Game) : Z -> Prop :=
| length_on_entry :
    length_during cfg fuel rnd joystick g (Snake.getLength (snake g))
| length_after_extend (m : Matrix.t) (s : Snake.t) :
    Snake.extend (matrix g) (snake g)
                 (steer (direct g) (readDirection cfg joystick (direct g))) = Ok (m, s) ->
    length_during cfg fuel rnd joystick g (Snake.getLength s)
| length_after_advance (g1 : Game) (eaten : bool) :
    advance cfg joystick g = Ok (g1, eaten) ->
    length_during cfg fuel rnd joystick g (Snake.getLength (snake g1))
| length_after_refill (g1 : Game) (eaten : bool) (g2 : Game) :
    advance cfg joystick g = Ok (g1, eaten) ->
    refill cfg fuel rnd g1 = Ok g2 ->
    length_during cfg fuel rnd joystick g (Snake.getLength (snake g2))
| length_on_return (g' : Game) (o : Outcome) :
    loop cfg fuel rnd joystick g = Ok (g', o) ->
    length_during cfg fuel rnd joystick g (Snake.getLength (snake g')).

(** Two matrices of the same dimensions. *)
Definition same_size (m m' : Matrix.t) : Prop :=
  Matrix.getRowsCount m' = Matrix.getRowsCount m /\
  Matrix.getColumnsCount m' = Matrix.getColumnsCount m.

(** Constants for which the sketch makes sense: a snake with a head that is
    born shorter than the maximum, a grid, and some food. *)
Definition sane (cfg : Config) : Prop :=
  1 <= INIT_SNAKE_LENGTH cfg < MAX_SNAKE_LENGTH cfg /\
  0 < ROWS cfg /\ 0 < COLUMNS cfg /\ 1 <= FOOD_POINTS cfg.

(** The shape of the objects between two calls of [loop()]: the snake has a
    head and two spare slots, the food fits its array, and the arrays and the
    matrix have the sizes [initGame()] gave them. *)
Definition well_formed (cfg : Config) (g : Game) : Prop :=
  1 <= Snake.getLength (snake g) < MAX_SNAKE_LENGTH cfg /\
  Snake.capacity (snake g) = MAX_SNAKE_LENGTH cfg + 1 /\
  0 <= Food.getCount (food g) <= FOOD_POINTS cfg /\
  Food.capacity (food g) = FOOD_POINTS cfg /\
  Matrix.getRowsCount (matrix g) = ROWS cfg /\
  Matrix.getColumnsCount (matrix g) = COLUMNS cfg.



(** The direction two places further in the enumeration. *)
Definition opposite (d : Direction) : Direction :=
  match d with
  | LEFT => RIGHT
  | UP => DOWN
  | RIGHT => LEFT
  | DOWN => UP
  end.

(** The point [i] steps of [d] away from [start], without wrapping. *)
Definition step_from (start d : point) (i : Z) : point :=
  {| x := x start + i * x d; y := y start + i * y d |}.

(** The calls of [loop()] the Arduino runtime makes one after the other, one
    per joystick reading of the list, with the way each call ended. *)
Fixpoint run (cfg : Config) (fuel : nat) (rnd : nat -> point) (joysticks : list (Z * Z))
    (g : Game) : result (Game * list Outcome) :=
  match joysticks with
  | [] => Ok (g, [])
  | joystick :: joysticks' =>
      '(g1, o) ← loop cfg fuel rnd joystick g;
      '(g2, os) ← run cfg fuel rnd joysticks' g1;
      Ok (g2, o :: os)
  end.

(** No cell is occupied twice: the cells of the snake are pairwise distinct,
    the food cells are pairwise distinct, and no food lies on the snake. *)
Definition exclusive (g : Game) : Prop :=
  NoDup (Snake.cells (snake g)) /\
  NoDup (Food.cells (food g)) /\
  forall p : point, p ∈ Food.cells (food g) -> p ∉ Snake.cells (snake g).


(** ** Example states *)

(** The display of the sketch, blank. *)
Definition blank : Matrix.t := Matrix.new (ROWS sketch) (COLUMNS sketch).

(** A playfield of one row and two columns. *)
Definition strip : Matrix.t := Matrix.new 1 2.

(** A snake of three cells along the top row whose head is on the right edge,
    in the array of the sketch. *)
Definition snake_at_edge : Snake.t :=
  {| Snake.m_currentLength := 3;
     Snake.m_snake := [Point 5 0; Point 6 0; Point 7 0] ++ replicate 10 junk |}.

(** A snake of five cells whose head sits on its own tail cell. *)
Definition snake_biting : Snake.t :=
  {| Snake.m_currentLength := 5;
     Snake.m_snake := [Point 3 3; Point 4 3; Point 4 4; Point 3 4; Point 3 3]
                      ++ replicate 8 junk |}.

(** A snake of one cell on the left cell of [strip], in an array of two. *)
Definition snake_on_strip : Snake.t :=
  {| Snake.m_currentLength := 1; Snake.m_snake := [Point 0 0; junk] |}.

(** A snake of two cells that fills its array of two. *)
Definition snake_full : Snake.t :=
  {| Snake.m_currentLength := 2; Snake.m_snake := [Point 0 0; Point 1 0] |}.

(** Two pieces of food, in the array of the sketch. *)
Definition food_pair : Food.t :=
  {| Food.m_foodCount := 2; Food.m_foodPoints := [Point 7 3; Point 2 2] |}.

(** Food with one piece in an array of two. *)
Definition food_single : Food.t :=
  {| Food.m_foodCount := 1; Food.m_foodPoints := [Point 7 3; junk] |}.

(** A stream of draws: the first lands on the new snake, the third repeats
    the second. *)
Definition rnd_demo (k : nat) : point :=
  match k with
  | 0%nat => Point 7 0
  | 1%nat => Point 7 3
  | 2%nat => Point 7 3
  | 3%nat => Point 2 2
  | _ => Point 5 5
  end.

(** A stream that puts the food in the way of the new snake: three pieces
    down the right column, then two in the top left corner. *)
Definition rnd_feast (k : nat) : point :=
  match k with
  | 0%nat => Point 7 2
  | 1%nat => Point 7 3
  | 2%nat => Point 7 4
  | 3%nat => Point 0 0
  | _ => Point 1 1
  end.

(** Joystick readings: at rest three times, then left, down, right and up. *)
Definition joysticks_feast : list (Z * Z) :=
  [(512, 512); (512, 512); (512, 512); (1023, 512); (512, 0); (0, 512); (512, 1023)].

(** The game after [setup()] and the first six readings of
    [joysticks_feast] under [rnd_feast]: a snake of five cells that heads
    right at (7, 5), below its own second cell. *)
Definition game_before_bite : Game :=
  {| matrix := {| Matrix.m_rows := 8; Matrix.m_columns := 8;
                  Matrix.m_display := [128; 64; 0; 1; 3; 3; 0; 0] |};
     snake := {| Snake.m_currentLength := 5;
                 Snake.m_snake := [Point 7 3; Point 7 4; Point 6 4; Point 6 5; Point 7 5]
                                  ++ replicate 8 junk |};
     food := {| Food.m_foodCount := 2; Food.m_foodPoints := [Point 0 0; Point 1 1] |};
     direct := RIGHT;
     buzzer := false;
     drawn := 5 |}.

(** The game of [game_before_meal] after the snake has eaten and the food was
    refilled, before the checks. *)
Definition game_fed : Game :=
  {| matrix := {| Matrix.m_rows := 8; Matrix.m_columns := 8;
                  Matrix.m_display := [0; 1; 33; 1; 0; 4; 0; 0] |};
     snake := {| Snake.m_currentLength := 3;
                 Snake.m_snake := [Point 7 1; Point 7 2; Point 7 3] ++ replicate 10 junk |};
     food := {| Food.m_foodCount := 2; Food.m_foodPoints := [Point 2 2; Point 5 5] |};
     direct := DOWN;
     buzzer := true;
     drawn := 5 |}.

(** A stream that always draws the right cell of [strip]. *)
Definition rnd_stuck (k : nat) : point := Point 1 0.

(** The game one step after [setup()] under [rnd_demo], with the joystick at
    rest: the snake heads down the right column and the food at (7, 3) is the
    next cell. *)
Definition game_before_meal : Game :=
  {| matrix := {| Matrix.m_rows := 8; Matrix.m_columns := 8;
                  Matrix.m_display := [0; 1; 33; 1; 0; 0; 0; 0] |};
     snake := {| Snake.m_currentLength := 2;
                 Snake.m_snake := [Point 7 1; Point 7 2] ++ replicate 11 junk |};
     food := food_pair;
     direct := DOWN;
     buzzer := false;
     drawn := 4 |}.

(** A snake of five cells that has just turned left at (4, 4); with the
    joystick pushed up its next cell is (3, 3), the second cell of its body. *)
Definition game_about_to_bite : Game :=
  {| matrix := blank;
     snake := {| Snake.m_currentLength := 5;
                 Snake.m_snake := [Point 2 3; Point 3 3; Point 4 3; Point 4 4; Point 3 4]
                                  ++ replicate 8 junk |};
     food := food_pair;
     direct := LEFT;
     buzzer := false;
     drawn := 0 |}.

(** * Properties *)

(** ** The outcome monad and the array accesses *)

Lemma rd_nat {A : Type} (a : list A) (n : nat) (v : A) :
  a !! n = Some v -> rd a (Z.of_nat n) = Ok v.
Proof.
  intros H. unfold rd.
  destruct (Z.leb_spec 0 (Z.of_nat n)); [|lia].
  by rewrite Nat2Z.id, H.
Qed.

Lemma rd_Ok_iff {A : Type} (a : list A) (i : Z) (v : A) :
  rd a i = Ok v <-> 0 <= i /\ a !! Z.to_nat i = Some v.
Proof.
  unfold rd. destruct (Z.leb_spec 0 i).
  - destruct (a !! Z.to_nat i); split; intros; simplify_eq; try done.
    + destruct_and!; simplify_eq. done.
    + destruct_and!; simplify_eq.
  - split; [done | lia].
Qed.

Lemma wr_nat {A : Type} (a : list A) (n : nat) (v : A) :
  (n < length a)%nat -> wr a (Z.of_nat n) v = Ok (<[n := v]> a).
Proof.
  intros H. unfold wr.
  destruct (Z.leb_spec 0 (Z.of_nat n)); [|lia].
  destruct (Z.ltb_spec (Z.of_nat n) (Z.of_nat (length a))); [|lia].
  by rewrite Nat2Z.id.
Qed.

Lemma point_eqb_eq (p q : point) : point_eqb p q = true <-> p = q.
Proof.
  destruct p as [px py], q as [qx qy]. unfold point_eqb. simpl.
  rewrite andb_true_iff, !Z.eqb_eq. split; [intros [-> ->]; done | intros; by simplify_eq].
Qed.

Lemma point_eqb_decide (p q : point) : point_eqb p q = bool_decide (p = q).
Proof.
  case_bool_decide as H.
  - by apply point_eqb_eq.
  - destruct (point_eqb p q) eqn:E; [|done]. by apply point_eqb_eq in E.
Qed.

(** ** Scanning an array *)

(** One round of a scan for [p]: the slot at [n] is read and compared, and the
    induction hypothesis [IH] covers the slots behind it. *)
Ltac scan_step arr n IH :=
  let c := fresh "c" in
  let Hc := fresh "Hc" in
  destruct (lookup_lt_is_Some_2 arr n) as [c Hc]; [lia|];
  rewrite (rd_nat _ _ _ Hc); simpl;
  rewrite (drop_S _ _ _ Hc); simpl; rewrite point_eqb_decide;
  case_bool_decide;
  [ f_equal; symmetry; apply bool_decide_eq_true; subst; apply list_elem_of_here
  | replace (Z.of_nat n + 1) with (Z.of_nat (S n)) by lia;
    rewrite IH by lia; f_equal; apply bool_decide_ext;
    rewrite elem_of_cons; intuition congruence ].

Lemma Snake_isOccupied_loop_spec (arr : list point) (p : point) (n todo : nat) :
  (n + todo <= length arr)%nat ->
  Snake.isOccupied_loop arr p (Z.of_nat n) todo
  = Ok (bool_decide (p ∈ take todo (drop n arr))).
Proof.
  revert n. induction todo as [|todo IH]; intros n Hlen; simpl.
  - done.
  - scan_step arr n IH.
Qed.

Lemma Snake_checkSelfCollision_loop_spec (arr : list point) (p : point) (n todo : nat) :
  (n + todo <= length arr)%nat ->
  Snake.checkSelfCollision_loop arr p (Z.of_nat n) todo
  = Ok (bool_decide (p ∈ take todo (drop n arr))).
Proof.
  revert n. induction todo as [|todo IH]; intros n Hlen; simpl.
  - done.
  - scan_step arr n IH.
Qed.

Lemma Food_isOccupied_loop_spec (arr : list point) (p : point) (n todo : nat) :
  (n + todo <= length arr)%nat ->
  Food.isOccupied_loop arr p (Z.of_nat n) todo
  = Ok (bool_decide (p ∈ take todo (drop n arr))).
Proof.
  revert n. induction todo as [|todo IH]; intros n Hlen; simpl.
  - done.
  - scan_step arr n IH.
Qed.

Lemma Snake_isOccupied_spec (s : Snake.t) (p : point) :
  0 <= Snake.m_currentLength s <= Snake.capacity s ->
  Snake.isOccupied s p = Ok (bool_decide (p ∈ Snake.cells s)).
Proof.
  intros H. unfold Snake.isOccupied, Snake.cells, Snake.capacity in *.
  change 0 with (Z.of_nat 0). rewrite Snake_isOccupied_loop_spec by (simpl; lia).
  by rewrite drop_0.
Qed.

Lemma Food_isOccupied_spec (f : Food.t) (p : point) :
  0 <= Food.m_foodCount f <= Food.capacity f ->
  Food.isOccupied f p = Ok (bool_decide (p ∈ Food.cells f)).
Proof.
  intros H. unfold Food.isOccupied, Food.cells, Food.capacity in *.
  change 0 with (Z.of_nat 0). rewrite Food_isOccupied_loop_spec by (simpl; lia).
  by rewrite drop_0.
Qed.

(** ** Snake::extend *)

(** What [extend] computes, with the remainders of the source. *)
Lemma Snake_extend_spec (canvas : Matrix.t) (s : Snake.t) (dir : Direction) (head : point) :
  Snake.m_currentLength s < Snake.capacity s ->
  Matrix.getColumnsCount canvas <> 0 ->
  Matrix.getRowsCount canvas <> 0 ->
  Snake.getHead s = Ok head ->
  let d := makeDirectionVector dir in
  let head' := {| x := Z.rem (x head + x d + Matrix.getColumnsCount canvas)
                            (Matrix.getColumnsCount canvas);
                  y := Z.rem (y head + y d + Matrix.getRowsCount canvas)
                            (Matrix.getRowsCount canvas) |} in
  Snake.extend canvas s dir
  = Ok (Matrix.setPixel canvas head' true,
        {| Snake.m_currentLength := Snake.m_currentLength s + 1;
           Snake.m_snake := <[Z.to_nat (Snake.m_currentLength s) := head']> (Snake.m_snake s) |}).
Proof.
  intros Hcap Hc Hr Hhead d head'. unfold Snake.extend. rewrite Hhead. simpl.
  unfold c_rem.
  destruct (Z.eqb_spec (Matrix.getColumnsCount canvas) 0) as [|_]; [done|].
  destruct (Z.eqb_spec (Matrix.getRowsCount canvas) 0) as [|_]; [done|].
  simpl.
  apply rd_Ok_iff in Hhead as [Hlen _].
  unfold Snake.capacity in Hcap.
  replace (Snake.m_currentLength s) with (Z.of_nat (Z.to_nat (Snake.m_currentLength s))) at 1
    by lia.
  rewrite wr_nat by lia. done.
Qed.

Lemma Snake_cells_snoc (arr : list point) (len : Z) (p : point) :
  0 <= len < Z.of_nat (length arr) ->
  Snake.cells {| Snake.m_currentLength := len + 1;
                 Snake.m_snake := <[Z.to_nat len := p]> arr |}
  = Snake.cells {| Snake.m_currentLength := len; Snake.m_snake := arr |} ++ [p].
Proof.
  intros H. unfold Snake.cells. simpl.
  replace (Z.to_nat (len + 1)) with (S (Z.to_nat len)) by lia.
  rewrite (take_S_r _ _ p) by (apply list_lookup_insert_eq; lia).
  by rewrite take_insert_ge by lia.
Qed.

(** The sums [extend] forms before the remainder fit a 16-bit [int] on every
    grid whose sides are below 2^14. *)
Lemma Snake_extend_operands_fit (canvas : Matrix.t) (dir : Direction) (head : point) :
  in_grid canvas head ->
  Matrix.getColumnsCount canvas < 2 ^ 14 ->
  Matrix.getRowsCount canvas < 2 ^ 14 ->
  let d := makeDirectionVector dir in
  let moved := point_add head d in
  let lifted := point_add moved {| x := Matrix.getColumnsCount canvas;
                                   y := Matrix.getRowsCount canvas |} in
  (- 2 ^ 15 <= x moved < 2 ^ 15 /\ - 2 ^ 15 <= y moved < 2 ^ 15) /\
  (0 <= x lifted < 2 ^ 15 /\ 0 <= y lifted < 2 ^ 15).
Proof.
  intros [Hx Hy] Hc Hr. destruct head as [hx hy], dir; simpl in *; lia.
Qed.

(** C2: from a head inside the grid, [extend] appends the head
    ((x + dx + columns) mod columns, (y + dy + rows) mod rows), which is
    inside the grid again; at each of the four edges the head reappears on
    the opposite edge of the same row or column. *)
Theorem extend_wraps_on_torus (canvas : Matrix.t) (s : Snake.t) (dir : Direction) (head : point) :
  Snake.m_currentLength s < Snake.capacity s ->
  Snake.getHead s = Ok head ->
  in_grid canvas head ->
  let columns := Matrix.getColumnsCount canvas in
  let rows := Matrix.getRowsCount canvas in
  let d := makeDirectionVector dir in
  exists canvas' s' head',
    Snake.extend canvas s dir = Ok (canvas', s') /\
    Snake.getHead s' = Ok head' /\
    head' = {| x := (x head + x d + columns) mod columns;
               y := (y head + y d + rows) mod rows |} /\
    in_grid canvas head' /\
    (dir = RIGHT -> x head = columns - 1 -> head' = {| x := 0; y := y head |}) /\
    (dir = LEFT -> x head = 0 -> head' = {| x := columns - 1; y := y head |}) /\
    (dir = DOWN -> y head = rows - 1 -> head' = {| x := x head; y := 0 |}) /\
    (dir = UP -> y head = 0 -> head' = {| x := x head; y := rows - 1 |}).
Proof.
  intros Hcap Hhead [Hx Hy] columns rows d.
  assert (Hlen : 0 <= Snake.m_currentLength s - 1) by (by apply rd_Ok_iff in Hhead as [? _]).
  pose proof (Snake_extend_spec canvas s dir head Hcap ltac:(lia) ltac:(lia) Hhead) as E.
  cbv zeta in E. fold columns rows d in E.
  assert (Hd : -1 <= x d <= 1 /\ -1 <= y d <= 1) by (destruct dir; simpl; lia).
  rewrite !Z.rem_mod_nonneg in E by lia.
  eexists _, _, _. split; [exact E|].
  split.
  { unfold Snake.getHead. simpl. unfold Snake.capacity in Hcap.
    replace (Snake.m_currentLength s + 1 - 1)
      with (Z.of_nat (Z.to_nat (Snake.m_currentLength s))) by lia.
    apply rd_nat. apply list_lookup_insert_eq. lia. }
  split; [done|].
  split.
  { split; simpl; apply Z.mod_pos_bound; lia. }
  destruct head as [hx hy]. simpl in *.
  repeat split; intros -> Hedge; simpl; subst; f_equal.
  - replace (columns - 1 + 1 + columns) with (0 + 2 * columns) by lia.
    by rewrite Z.mod_add by lia.
  - replace (hy + 0 + rows) with (hy + 1 * rows) by lia.
    rewrite Z.mod_add by lia. apply Z.mod_small. lia.
  - replace (0 + -1 + columns) with (columns - 1) by lia. apply Z.mod_small. lia.
  - replace (hy + 0 + rows) with (hy + 1 * rows) by lia.
    rewrite Z.mod_add by lia. apply Z.mod_small. lia.
  - replace (hx + 0 + columns) with (hx + 1 * columns) by lia.
    rewrite Z.mod_add by lia. apply Z.mod_small. lia.
  - replace (rows - 1 + 1 + rows) with (0 + 2 * rows) by lia.
    by rewrite Z.mod_add by lia.
  - replace (hx + 0 + columns) with (hx + 1 * columns) by lia.
    rewrite Z.mod_add by lia. apply Z.mod_small. lia.
  - replace (0 + -1 + rows) with (rows - 1) by lia. apply Z.mod_small. lia.
Qed.

Lemma extend_wraps_on_torus_witness :
  exists canvas' s',
    Snake.extend blank snake_at_edge RIGHT = Ok (canvas', s') /\
    Snake.getHead s' = Ok (Point 0 0).
Proof.
  destruct (extend_wraps_on_torus blank snake_at_edge RIGHT (Point 7 0))
    as (canvas' & s' & head' & E & Hh & _ & _ & Hright & _).
  - reflexivity.
  - reflexivity.
  - split; simpl; lia.
  - exists canvas', s'. split; [exact E|].
    rewrite Hh. f_equal. apply Hright; reflexivity.
Defined.

(** ** Snake::checkSelfCollision *)

(** C5: [checkSelfCollision] answers true exactly when the head, the cell at
    index [length - 1], equals a cell at a smaller index. *)
Theorem checkSelfCollision_exact (s : Snake.t) :
  1 <= Snake.m_currentLength s <= Snake.capacity s ->
  exists head b,
    Snake.getHead s = Ok head /\
    Snake.checkSelfCollision s = Ok b /\
    (b = true <->
     exists i : Z, 0 <= i < Snake.m_currentLength s - 1 /\ rd (Snake.m_snake s) i = Ok head).
Proof.
  intros Hlen. unfold Snake.capacity in Hlen.
  destruct (lookup_lt_is_Some_2 (Snake.m_snake s) (Z.to_nat (Snake.m_currentLength s - 1)))
    as [head Hhead]; [lia|].
  assert (Hget : Snake.getHead s = Ok head).
  { unfold Snake.getHead. apply rd_Ok_iff. split; [lia | done]. }
  exists head, (bool_decide (head ∈ take (Z.to_nat (Snake.m_currentLength s - 1))
                                         (Snake.m_snake s))).
  split; [done|]. split.
  - unfold Snake.checkSelfCollision. rewrite Hget. simpl.
    change 0 with (Z.of_nat 0).
    rewrite Snake_checkSelfCollision_loop_spec by (simpl; lia).
    by rewrite drop_0.
  - rewrite bool_decide_eq_true, elem_of_take. split.
    + intros (i & Hi & Hlt). exists (Z.of_nat i). split; [lia|]. by apply rd_nat.
    + intros (i & Hi & Hrd). apply rd_Ok_iff in Hrd as [_ Hrd].
      exists (Z.to_nat i). split; [done | lia].
Qed.

Lemma checkSelfCollision_exact_witness :
  Snake.checkSelfCollision snake_biting = Ok true /\
  Snake.checkSelfCollision snake_at_edge = Ok false.
Proof.
  split.
  - destruct (checkSelfCollision_exact snake_biting) as (head & b & Hh & Hc & Hiff).
    + unfold Snake.capacity. simpl. lia.
    + rewrite Hc. f_equal. apply Hiff. exists 0. split; [simpl; lia|].
      rewrite <- Hh. reflexivity.
  - destruct (checkSelfCollision_exact snake_at_edge) as (head & b & Hh & Hc & Hiff).
    + unfold Snake.capacity. simpl. lia.
    + rewrite Hc. f_equal. destruct b; [|done].
      destruct (proj1 Hiff eq_refl) as (i & Hi & Hrd).
      change (Snake.m_currentLength snake_at_edge - 1) with 2 in Hi.
      assert (Hhead : head = Point 7 0) by (vm_compute in Hh; congruence).
      subst head.
      assert (i = 0 \/ i = 1) as [-> | ->] by lia; vm_compute in Hrd; congruence.
Defined.

(** ** The heading *)

(** C3: the heading becomes the requested direction exactly when the
    difference of the two indices is odd; a request equal to the heading or
    opposite to it keeps the heading.  This is the heading [loop()] moves
    the snake along and keeps in [direct]. *)
Theorem steer_accepts_odd_difference (cur req : Direction) :
  let diff := (Direction_index req - Direction_index cur) mod 4 in
  ((steer cur req = req /\ steer cur req <> cur) <-> Z.odd diff = true) /\
  (steer cur req = cur <-> (diff = 0 \/ diff = 2)) /\
  steer DOWN UP = DOWN /\ steer DOWN LEFT = LEFT /\ steer DOWN RIGHT = RIGHT /\
  forall (cfg : Config) (joystick : Z * Z) (g g1 : Game) (eaten : bool),
    direct g = cur ->
    readDirection cfg joystick cur = req ->
    advance cfg joystick g = Ok (g1, eaten) ->
    direct g1 = steer cur req.
Proof.
  intros diff.
  assert (Hturn : ((steer cur req = req /\ steer cur req <> cur) <-> Z.odd diff = true) /\
                  (steer cur req = cur <-> (diff = 0 \/ diff = 2)))
    by (subst diff; destruct cur, req; vm_compute; intuition congruence).
  destruct Hturn as [Hodd Heven].
  do 5 (split; [done|]).
  intros cfg joystick g g1 eaten <- <- H. unfold advance in H.
  destruct (Snake.extend _ _ _) as [[m s]| |]; simpl in H; [|done..].
  destruct (Snake.getHead s) as [head| |]; simpl in H; [|done..].
  destruct (Food.tryEat (food g) head) as [[[|] f]| |]; simpl in H; [| |done..].
  - by simplify_eq.
  - destruct (Snake.cut m s) as [[m' s']| |]; simpl in H; [|done..]. by simplify_eq.
Qed.

Lemma steer_accepts_odd_difference_witness :
  exists g1 : Game,
    advance sketch (512, 1023) game_about_to_bite = Ok (g1, false) /\ direct g1 = UP.
Proof.
  destruct (steer_accepts_odd_difference LEFT UP) as (_ & _ & _ & _ & _ & Hloop).
  destruct (advance sketch (512, 1023) game_about_to_bite) as [[g1 eaten]| |] eqn:E;
    [|by vm_compute in E..].
  exists g1. split.
  - vm_compute in E. by simplify_eq.
  - apply (Hloop sketch (512, 1023) game_about_to_bite g1 eaten); [reflexivity..|exact E].
Defined.

(** ** Food::tryEat *)

(** Overwriting one slot by a new element [z] and dropping [z] from the end
    removes one occurrence of the overwritten element. *)
Lemma overwrite_Permutation (l : list point) (i : nat) (p z : point) :
  l !! i = Some p -> l ++ [z] ≡ₚ p :: <[i := z]> l.
Proof.
  revert i. induction l as [|c l IH]; intros [|i] Hi; simplify_eq/=.
  - constructor. symmetry. apply Permutation_cons_append.
  - rewrite (IH _ Hi). apply perm_swap.
Qed.

(** The scan of [tryEat] from slot [n]: either no slot left holds [p] and the
    food is returned as it was, or the first slot [i] that holds [p] receives
    the last active element and the count drops by one. *)
Lemma Food_tryEat_loop_spec (f : Food.t) (p : point) (n todo : nat) :
  0 <= Food.m_foodCount f <= Food.capacity f ->
  (n + todo)%nat = Z.to_nat (Food.m_foodCount f) ->
  ((p ∉ take todo (drop n (Food.m_foodPoints f))) /\
   Food.tryEat_loop f p (Z.of_nat n) todo = Ok (false, f)) \/
  (exists (i : nat) (last : point),
     (n <= i < n + todo)%nat /\
     Food.m_foodPoints f !! i = Some p /\
     (forall j : nat, (n <= j < i)%nat -> Food.m_foodPoints f !! j <> Some p) /\
     Food.m_foodPoints f !! Z.to_nat (Food.m_foodCount f - 1) = Some last /\
     Food.tryEat_loop f p (Z.of_nat n) todo
     = Ok (true, {| Food.m_foodCount := Food.m_foodCount f - 1;
                    Food.m_foodPoints := <[i := last]> (Food.m_foodPoints f) |})).
Proof.
  intros Hwf. unfold Food.capacity in Hwf.
  revert n. induction todo as [|todo IH]; intros n Hn; simpl.
  - left. split; [apply not_elem_of_nil | done].
  - destruct (lookup_lt_is_Some_2 (Food.m_foodPoints f) n) as [c Hc]; [lia|].
    rewrite (rd_nat _ _ _ Hc). simpl. rewrite point_eqb_decide.
    case_bool_decide as Hcp.
    + subst c. right.
      destruct (lookup_lt_is_Some_2 (Food.m_foodPoints f)
                  (Z.to_nat (Food.m_foodCount f - 1))) as [last Hlast]; [lia|].
      exists n, last. split; [lia|]. split; [done|]. split; [intros; lia|].
      split; [done|].
      replace (Food.m_foodCount f - 1)
        with (Z.of_nat (Z.to_nat (Food.m_foodCount f - 1))) at 1 by lia.
      rewrite (rd_nat _ _ _ Hlast). simpl.
      by rewrite wr_nat by lia.
    + replace (Z.of_nat n + 1) with (Z.of_nat (S n)) by lia.
      destruct (IH (S n)) as [[Hnot E] | (i & last & Hi & Hp & Hfirst & Hlast & E)]; [lia| |].
      * left. split; [|done].
        rewrite (drop_S _ _ _ Hc). simpl. rewrite elem_of_cons. intuition congruence.
      * right. exists i, last. split; [lia|]. split; [done|]. split; [|done].
        intros j Hj. destruct (decide (j = n)) as [->|]; [congruence | apply Hfirst; lia].
Qed.

(** [tryEat] on a food that fits its array: the answer, the slot that is
    overwritten, and the cells that stay. *)
Lemma Food_tryEat_spec (f : Food.t) (p : point) :
  0 <= Food.m_foodCount f <= Food.capacity f ->
  exists (b : bool) (f' : Food.t),
    Food.tryEat f p = Ok (b, f') /\
    (b = true <-> p ∈ Food.cells f) /\
    (b = true ->
     Food.getCount f' = Food.getCount f - 1 /\
     Food.cells f ≡ₚ p :: Food.cells f' /\
     exists (i : nat) (last : point),
       Food.cells f !! i = Some p /\
       (forall j : nat, (j < i)%nat -> Food.cells f !! j <> Some p) /\
       rd (Food.m_foodPoints f) (Food.m_foodCount f - 1) = Ok last /\
       Food.m_foodPoints f' = <[i := last]> (Food.m_foodPoints f)) /\
    (b = false -> f' = f).
Proof.
  intros Hwf.
  destruct (Food_tryEat_loop_spec f p 0 (Z.to_nat (Food.m_foodCount f)) Hwf eq_refl)
    as [[Hnot E] | (i & last & Hi & Hp & Hfirst & Hlast & E)].
  - rewrite drop_0 in Hnot. fold (Food.cells f) in Hnot.
    exists false, f. split; [exact E|]. split; [split; [done | intros; done]|].
    split; [done | done].
  - unfold Food.capacity in Hwf.
    eexists true, _. split; [exact E|].
    assert (Hcell : Food.cells f !! i = Some p).
    { unfold Food.cells. rewrite lookup_take_lt by lia. done. }
    split; [split; [intros _; by eapply list_elem_of_lookup_2 | done]|].
    split; [|done]. intros _. split; [done|]. split.
    + unfold Food.cells at 2. simpl.
      remember (Z.to_nat (Food.m_foodCount f - 1)) as c eqn:Hceq.
      assert (Hc : Food.cells f = take c (Food.m_foodPoints f) ++ [last]).
      { unfold Food.cells. replace (Z.to_nat (Food.m_foodCount f)) with (S c) by lia.
        by apply take_S_r. }
      rewrite Hc. destruct (decide (i = c)) as [->|Hne].
      * rewrite take_insert_ge by lia. assert (p = last) as -> by congruence.
        symmetry. apply Permutation_cons_append.
      * rewrite take_insert_lt by lia. apply overwrite_Permutation.
        rewrite lookup_take_lt by lia. done.
    + exists i, last. split; [done|]. split.
      * intros j Hj. unfold Food.cells. rewrite lookup_take_lt by lia. apply Hfirst. lia.
      * split; [|done]. apply rd_Ok_iff. split; [lia | done].
Qed.

(** C9: [tryEat p] answers true exactly when [p] is an active food cell.
    Then the count drops by one, the first slot holding [p] receives the last
    active element, and the active cells are the former ones minus one
    occurrence of [p].  When it answers false the food is unchanged. *)
Theorem tryEat_removes_one (f : Food.t) (p : point) :
  0 <= Food.m_foodCount f <= Food.capacity f ->
  exists (b : bool) (f' : Food.t),
    Food.tryEat f p = Ok (b, f') /\
    (b = true <-> p ∈ Food.cells f) /\
    (b = true ->
     Food.getCount f' = Food.getCount f - 1 /\
     Food.cells f ≡ₚ p :: Food.cells f' /\
     exists (i : nat) (last : point),
       Food.cells f !! i = Some p /\
       (forall j : nat, (j < i)%nat -> Food.cells f !! j <> Some p) /\
       rd (Food.m_foodPoints f) (Food.m_foodCount f - 1) = Ok last /\
       Food.m_foodPoints f' = <[i := last]> (Food.m_foodPoints f)) /\
    (b = false ->
     f' = f /\ Food.getCount f' = Food.getCount f /\ Food.cells f' = Food.cells f).
Proof.
  intros Hwf.
  destruct (Food_tryEat_spec f p Hwf) as (b & f' & E & Hiff & Hyes & Hno).
  exists b, f'. split; [exact E|]. split; [exact Hiff|]. split; [exact Hyes|].
  intros Hb. rewrite (Hno Hb). done.
Qed.

Lemma tryEat_removes_one_witness :
  exists f', Food.tryEat food_pair (Point 7 3) = Ok (true, f') /\
             Food.getCount f' = 1 /\ Food.cells f' = [Point 2 2].
Proof.
  destruct (tryEat_removes_one food_pair (Point 7 3)) as (b & f' & E & Hiff & Hyes & _).
  - unfold Food.capacity. simpl. lia.
  - assert (Hb : b = true).
    { apply Hiff. apply list_elem_of_here. }
    subst b. exists f'. split; [exact E|].
    vm_compute in E. split; simplify_eq; reflexivity.
Defined.

(** ** Food::placeFood *)

Lemma Food_cells_put (f : Food.t) (p : point) :
  0 <= Food.m_foodCount f < Food.capacity f ->
  Food.cells (Food_put f p) = Food.cells f ++ [p].
Proof.
  intros H. unfold Food.capacity in H. unfold Food.cells, Food_put. simpl.
  replace (Z.to_nat (Food.m_foodCount f + 1)) with (S (Z.to_nat (Food.m_foodCount f))) by lia.
  rewrite (take_S_r _ _ p) by (apply list_lookup_insert_eq; lia).
  by rewrite take_insert_ge by lia.
Qed.

Lemma Food_capacity_put (f : Food.t) (p : point) :
  Food.capacity (Food_put f p) = Food.capacity f.
Proof. unfold Food.capacity, Food_put. simpl. by rewrite length_insert. Qed.

(** One round of the loop of [placeFood]. *)
Lemma Food_placeFood_round (fuel : nat) (rnd : nat -> point) (canvas : Matrix.t)
    (s : Snake.t) (f : Food.t) (numToPlace : Z) (n : nat) :
  0 <= Snake.m_currentLength s <= Snake.capacity s ->
  0 <= Food.m_foodCount f <= Food.capacity f ->
  Food.placeFood (S fuel) rnd canvas s f numToPlace n
  = if decide (unoccupied s f (rnd n)) then
      if Food.m_foodCount f <? Food.capacity f then
        if numToPlace - 1 <=? 0 then
          Ok (Matrix.setPixel canvas (rnd n) true, Food_put f (rnd n), S n)
        else
          Food.placeFood fuel rnd (Matrix.setPixel canvas (rnd n) true) s
                         (Food_put f (rnd n)) (numToPlace - 1) (S n)
      else Fault
    else Food.placeFood fuel rnd canvas s f numToPlace (S n).
Proof.
  intros Hs Hf. simpl.
  rewrite Snake_isOccupied_spec by done.
  unfold unoccupied. simpl.
  case_bool_decide as Hon; simpl.
  - rewrite decide_False by tauto. done.
  - rewrite Food_isOccupied_spec by done. simpl.
    case_bool_decide as Hof; simpl.
    + rewrite decide_False by tauto. done.
    + rewrite decide_True by tauto.
      unfold wr, Food.capacity in *.
      destruct (Z.leb_spec 0 (Food.m_foodCount f)); [|lia]. simpl.
      destruct (Z.ltb_spec (Food.m_foodCount f) (Z.of_nat (length (Food.m_foodPoints f))));
        simpl; done.
Qed.

(** What a call of [placeFood] that returns has done: it appended the
    accepted points [added] to the active cells; there are [numToPlace] of
    them, or one when [numToPlace] is not positive; each was unoccupied when
    it was drawn. *)
Lemma Food_placeFood_returns (fuel : nat) (rnd : nat -> point) (s : Snake.t) :
  0 <= Snake.m_currentLength s <= Snake.capacity s ->
  forall (canvas : Matrix.t) (f : Food.t) (numToPlace : Z) (n : nat)
         (canvas' : Matrix.t) (f' : Food.t) (n' : nat),
  0 <= Food.m_foodCount f <= Food.capacity f ->
  Food.placeFood fuel rnd canvas s f numToPlace n = Ok (canvas', f', n') ->
  exists added : list point,
    Food.cells f' = Food.cells f ++ added /\
    Z.of_nat (length added) = Z.max 1 numToPlace /\
    Food.m_foodCount f' = Food.m_foodCount f + Z.max 1 numToPlace /\
    Food.capacity f' = Food.capacity f /\
    Food.m_foodCount f' <= Food.capacity f' /\
    NoDup added /\
    (forall p, p ∈ added ->
       unoccupied s f p /\ exists k : nat, (n <= k < n')%nat /\ p = rnd k).
Proof.
  intros Hs. induction fuel as [|fuel IH]; intros canvas f numToPlace n canvas' f' n' Hf E.
  - done.
  - rewrite Food_placeFood_round in E by done.
    destruct (decide (unoccupied s f (rnd n))) as [Hfree|Hocc].
    + destruct (Z.ltb_spec (Food.m_foodCount f) (Food.capacity f)) as [Hroom|]; [|done].
      assert (Hput : Food.cells (Food_put f (rnd n)) = Food.cells f ++ [rnd n])
        by (apply Food_cells_put; lia).
      destruct (Z.leb_spec (numToPlace - 1) 0) as [Hlast|Hmore].
      * simplify_eq. exists [rnd n].
        rewrite Food_capacity_put. simpl.
        split; [done|]. split; [lia|]. split; [lia|]. split; [done|]. split; [lia|].
        split; [apply NoDup_singleton|].
        intros p Hin. apply list_elem_of_singleton in Hin as ->.
        split; [done|]. exists n. split; [lia | done].
      * apply IH in E as (added & Hcells & Hlen & Hcount & Hcap & Hle & Hnd & Hadded);
          [|rewrite Food_capacity_put; simpl; lia].
        rewrite Food_capacity_put in Hcap. simpl in Hcount.
        exists (rnd n :: added).
        split; [by rewrite Hcells, Hput, <- app_assoc|].
        split; [simpl length; lia|].
        split; [lia|]. split; [done|]. split; [done|].
        split.
        { apply NoDup_cons. split; [|done].
          intros Hin. apply Hadded in Hin as [[_ Hin] _].
          apply Hin. rewrite Hput. apply elem_of_app. right. apply list_elem_of_here. }
        intros p Hin. apply elem_of_cons in Hin as [->|Hin].
        { split; [done|]. exists n. split; [|done].
          destruct added as [|q added]; [simpl in Hlen; lia|].
          destruct (Hadded q) as [_ (k & Hk & _)]; [apply list_elem_of_here | lia]. }
        apply Hadded in Hin as [[Hps Hpf] (k & Hk & Hp)].
        split.
        { split; [done|]. intros Hin. apply Hpf. rewrite Hput. apply elem_of_app. by left. }
        exists k. split; [lia | done].
    + apply IH in E as (added & Hcells & Hlen & Hcount & Hcap & Hle & Hnd & Hadded); [|done].
      exists added. do 6 (split; [done|]).
      intros p Hin. destruct (Hadded _ Hin) as [Hun (k & Hk & Hp)].
      split; [done|]. exists k. split; [lia | done].
Qed.

Lemma in_grid_points (canvas : Matrix.t) (p : point) :
  in_grid canvas p -> p ∈ grid_points canvas.
Proof.
  intros [Hx Hy]. unfold grid_points. apply list_elem_of_bind.
  exists (x p). split.
  - apply list_elem_of_fmap. exists (y p). split; [by destruct p|].
    apply elem_of_seqZ. lia.
  - apply elem_of_seqZ. lia.
Qed.

(** A call of [placeFood] that asks for more points than there are free ones
    cannot return: with every draw inside the set [G], and the list [l]
    holding every unoccupied point of [G], a bounded run is out of fuel, or it
    writes behind the array when the call does not fit the array. *)
Lemma Food_placeFood_starves (rnd : nat -> point) (s : Snake.t) (G : point -> Prop) :
  0 <= Snake.m_currentLength s <= Snake.capacity s ->
  (forall k, G (rnd k)) ->
  forall (fuel : nat) (canvas : Matrix.t) (f : Food.t) (numToPlace : Z) (n : nat)
         (l : list point),
  0 <= Food.m_foodCount f <= Food.capacity f ->
  (forall p, G p -> unoccupied s f p -> p ∈ l) ->
  Z.of_nat (length l) < numToPlace ->
  match Food.placeFood fuel rnd canvas s f numToPlace n with
  | Ok _ => False
  | Fault => ~ Food.m_foodCount f + numToPlace <= Food.capacity f
  | OutOfFuel => True
  end.
Proof.
  intros Hs HG. induction fuel as [|fuel IH]; intros canvas f numToPlace n l Hf Hl Hlt.
  - done.
  - rewrite Food_placeFood_round by done.
    destruct (decide (unoccupied s f (rnd n))) as [Hfree|Hocc]; [|by eapply IH].
    assert (Hin : rnd n ∈ l) by (by apply Hl).
    apply elem_of_Permutation in Hin as [l' Hperm].
    assert (Hlen : length l = S (length l')) by (by rewrite Hperm).
    destruct (Z.ltb_spec (Food.m_foodCount f) (Food.capacity f)) as [Hroom|]; [|lia].
    destruct (Z.leb_spec (numToPlace - 1) 0) as [Hlast|Hmore]; [lia|].
    specialize (IH (Matrix.setPixel canvas (rnd n) true) (Food_put f (rnd n))
                   (numToPlace - 1) (S n) l').
    rewrite Food_capacity_put in IH. simpl in IH.
    destruct (Food.placeFood fuel rnd _ s (Food_put f (rnd n)) (numToPlace - 1) (S n));
      [apply IH | intros Hfit; apply IH | done]; try lia.
    + intros p Hp [Hps Hpf]. rewrite Food_cells_put in Hpf by lia.
      rewrite elem_of_app, list_elem_of_singleton in Hpf.
      assert (Hpl : p ∈ l) by (apply Hl; [done | split; tauto]).
      rewrite Hperm in Hpl. apply elem_of_cons in Hpl as [->|]; tauto.
    + intros p Hp [Hps Hpf]. rewrite Food_cells_put in Hpf by lia.
      rewrite elem_of_app, list_elem_of_singleton in Hpf.
      assert (Hpl : p ∈ l) by (apply Hl; [done | split; tauto]).
      rewrite Hperm in Hpl. apply elem_of_cons in Hpl as [->|]; tauto.
Qed.

(** C6: when [placeFood] returns, starting from food cells that are pairwise
    distinct and off the snake, no active food cell is a snake cell and no two
    active food cells are equal; the cells it added were unoccupied by the
    snake and by the food it found. *)
Theorem placeFood_keeps_food_exclusive (fuel : nat) (rnd : nat -> point) (canvas : Matrix.t)
    (s : Snake.t) (f : Food.t) (countToPlace : Z) (n : nat)
    (canvas' : Matrix.t) (f' : Food.t) (n' : nat) :
  0 <= Snake.m_currentLength s <= Snake.capacity s ->
  0 <= Food.m_foodCount f <= Food.capacity f ->
  NoDup (Food.cells f) ->
  (forall p, p ∈ Food.cells f -> p ∉ Snake.cells s) ->
  Food.placeFood fuel rnd canvas s f countToPlace n = Ok (canvas', f', n') ->
  (forall p, p ∈ Food.cells f' -> p ∉ Snake.cells s) /\
  NoDup (Food.cells f') /\
  exists added : list point,
    Food.cells f' = Food.cells f ++ added /\
    forall p, p ∈ added -> unoccupied s f p.
Proof.
  intros Hs Hf Hnd Hoff E.
  destruct (Food_placeFood_returns fuel rnd s Hs _ _ _ _ _ _ _ Hf E)
    as (added & Hcells & _ & _ & _ & _ & Hnda & Hadded).
  split; [|split].
  - intros p. rewrite Hcells, elem_of_app. intros [Hp|Hp]; [by apply Hoff|].
    by destruct (Hadded p Hp) as [[? _] _].
  - rewrite Hcells. apply NoDup_app. split; [done|]. split; [|done].
    intros p Hp Hpa. by destruct (Hadded p Hpa) as [[_ ?] _].
  - exists added. split; [done|]. intros p Hp. by destruct (Hadded p Hp).
Qed.

Lemma snake_at_edge_fits :
  0 <= Snake.m_currentLength snake_at_edge <= Snake.capacity snake_at_edge.
Proof. unfold Snake.capacity. simpl. lia. Defined.

Lemma food_single_fits :
  0 <= Food.m_foodCount food_single <= Food.capacity food_single.
Proof. unfold Food.capacity. simpl. lia. Defined.

Lemma placeFood_keeps_food_exclusive_witness :
  exists (canvas' : Matrix.t) (f' : Food.t),
    Food.placeFood 4 rnd_demo blank snake_at_edge food_single 1 0 = Ok (canvas', f', 4%nat) /\
    NoDup (Food.cells f') /\
    forall p, p ∈ Food.cells f' -> p ∉ Snake.cells snake_at_edge.
Proof.
  destruct (Food.placeFood 4 rnd_demo blank snake_at_edge food_single 1 0)
    as [[[canvas' f'] n']| |] eqn:E; [|by vm_compute in E..].
  destruct (placeFood_keeps_food_exclusive 4 rnd_demo blank snake_at_edge food_single 1 0
              canvas' f' n' snake_at_edge_fits food_single_fits) as (Hoff & Hnd & _).
  - apply NoDup_singleton.
  - intros p Hp. apply list_elem_of_singleton in Hp as ->.
    apply (bool_decide_unpack _). by vm_compute.
  - exact E.
  - exists canvas', f'. split; [|done]. vm_compute in E. by simplify_eq.
Defined.

(** C8: a call with [countToPlace >= 1] that returns has accepted exactly
    [countToPlace] points, and the count has risen by that number.  When every
    draw lies in the grid and the grid has fewer than [countToPlace] free
    cells, no bound on the number of rounds lets the call return: every
    bounded run is out of fuel when the call fits the array. *)
Theorem placeFood_returns_after_all_or_never (rnd : nat -> point) (canvas : Matrix.t)
    (s : Snake.t) (f : Food.t) (countToPlace : Z) (n : nat) :
  0 <= Snake.m_currentLength s <= Snake.capacity s ->
  0 <= Food.m_foodCount f <= Food.capacity f ->
  1 <= countToPlace ->
  (forall fuel canvas' f' n',
     Food.placeFood fuel rnd canvas s f countToPlace n = Ok (canvas', f', n') ->
     Food.getCount f' = Food.getCount f + countToPlace /\
     exists accepted : list point,
       Food.cells f' = Food.cells f ++ accepted /\
       Z.of_nat (length accepted) = countToPlace) /\
  ((forall k, in_grid canvas (rnd k)) ->
   Z.of_nat (length (free_cells canvas s f)) < countToPlace ->
   (forall fuel r, Food.placeFood fuel rnd canvas s f countToPlace n <> Ok r) /\
   (Food.m_foodCount f + countToPlace <= Food.capacity f ->
    forall fuel, Food.placeFood fuel rnd canvas s f countToPlace n = OutOfFuel)).
Proof.
  intros Hs Hf Hpos. split.
  - intros fuel canvas' f' n' E.
    destruct (Food_placeFood_returns fuel rnd s Hs _ _ _ _ _ _ _ Hf E)
      as (added & Hcells & Hlen & Hcount & _).
    split; [unfold Food.getCount; lia|].
    exists added. split; [done | lia].
  - intros Hgrid Hfew.
    assert (Hrun : forall fuel,
      match Food.placeFood fuel rnd canvas s f countToPlace n with
      | Ok _ => False
      | Fault => ~ Food.m_foodCount f + countToPlace <= Food.capacity f
      | OutOfFuel => True
      end).
    { intros fuel.
      apply (Food_placeFood_starves rnd s (in_grid canvas) Hs Hgrid fuel canvas f
               countToPlace n (free_cells canvas s f)); [done | | done].
      intros p Hp Hun. apply list_elem_of_filter. split; [done|].
      by apply in_grid_points. }
    split.
    + intros fuel r E. specialize (Hrun fuel). by rewrite E in Hrun.
    + intros Hfit fuel. specialize (Hrun fuel).
      by destruct (Food.placeFood fuel rnd canvas s f countToPlace n).
Qed.

Lemma placeFood_returns_after_all_or_never_witness :
  (exists (canvas' : Matrix.t) (f' : Food.t),
     Food.placeFood 4 rnd_demo blank snake_at_edge food_single 1 0 = Ok (canvas', f', 4%nat) /\
     Food.getCount f' = 2) /\
  Food.placeFood 1000 rnd_stuck strip snake_on_strip (Food.new 2) 2 0 = OutOfFuel.
Proof.
  split.
  - destruct (Food.placeFood 4 rnd_demo blank snake_at_edge food_single 1 0)
      as [[[canvas' f'] n']| |] eqn:E; [|by vm_compute in E..].
    destruct (placeFood_returns_after_all_or_never rnd_demo blank snake_at_edge food_single
                1 0 snake_at_edge_fits food_single_fits ltac:(lia)) as [Hall _].
    destruct (Hall 4%nat canvas' f' n' E) as [Hcount _].
    exists canvas', f'. split; [|exact Hcount]. vm_compute in E. by simplify_eq.
  - destruct (placeFood_returns_after_all_or_never rnd_stuck strip snake_on_strip (Food.new 2)
                2 0) as [_ Hnever].
    + unfold Snake.capacity. simpl. lia.
    + unfold Food.capacity. simpl. lia.
    + lia.
    + destruct Hnever as [_ Hstuck].
      * intros k. unfold in_grid, rnd_stuck, strip. simpl. lia.
      * by vm_compute.
      * apply Hstuck. unfold Food.capacity. simpl. lia.
Defined.

(** A call that asks for at most one point returns at the first unoccupied
    draw, provided the array has room for it. *)
Lemma Food_placeFood_first_free (rnd : nat -> point) (s : Snake.t) (f : Food.t)
    (numToPlace : Z) :
  0 <= Snake.m_currentLength s <= Snake.capacity s ->
  0 <= Food.m_foodCount f < Food.capacity f ->
  numToPlace <= 1 ->
  forall (k n : nat) (canvas : Matrix.t),
  unoccupied s f (rnd (n + k)%nat) ->
  exists j : nat,
    (j <= k)%nat /\
    unoccupied s f (rnd (n + j)%nat) /\
    Food.placeFood (S k) rnd canvas s f numToPlace n
    = Ok (Matrix.setPixel canvas (rnd (n + j)%nat) true,
          Food_put f (rnd (n + j)%nat), S (n + j)).
Proof.
  intros Hs Hf Hn. induction k as [|k IH]; intros n canvas Hfree.
  - exists 0%nat. rewrite Nat.add_0_r in *. split; [lia|]. split; [done|].
    rewrite Food_placeFood_round by lia. rewrite decide_True by done.
    destruct (Z.ltb_spec (Food.m_foodCount f) (Food.capacity f)); [|lia].
    destruct (Z.leb_spec (numToPlace - 1) 0); [done | lia].
  - rewrite Food_placeFood_round by lia.
    destruct (decide (unoccupied s f (rnd n))) as [Hnow|Hlater].
    + exists 0%nat. rewrite Nat.add_0_r. split; [lia|]. split; [done|].
      destruct (Z.ltb_spec (Food.m_foodCount f) (Food.capacity f)); [|lia].
      destruct (Z.leb_spec (numToPlace - 1) 0); [done | lia].
    + destruct (IH (S n) canvas) as (j & Hj & Hfj & E).
      { by replace (S n + k)%nat with (n + S k)%nat by lia. }
      exists (S j). replace (n + S j)%nat with (S n + j)%nat by lia.
      split; [lia|]. split; [done|]. exact E.
Qed.

(** C10: a call with [numToPlace <= 0] that returns has placed exactly one
    point, and it does return at the first unoccupied draw when the array has
    room.  [loop()] never makes such a call: the argument it passes is
    positive under both refill strategies. *)
Theorem placeFood_nonpositive_places_one (cfg : Config) (rnd : nat -> point)
    (canvas : Matrix.t) (s : Snake.t) (f : Food.t) (numToPlace : Z) (n : nat) :
  0 <= Snake.m_currentLength s <= Snake.capacity s ->
  0 <= Food.m_foodCount f <= Food.capacity f ->
  numToPlace <= 0 ->
  0 < FOOD_POINTS cfg ->
  (forall fuel canvas' f' n',
     Food.placeFood fuel rnd canvas s f numToPlace n = Ok (canvas', f', n') ->
     Food.getCount f' = Food.getCount f + 1 /\
     exists p, Food.cells f' = Food.cells f ++ [p]) /\
  (Food.m_foodCount f < Food.capacity f ->
   forall k : nat, unoccupied s f (rnd (n + k)%nat) ->
   exists canvas' p n',
     Food.placeFood (S k) rnd canvas s f numToPlace n = Ok (canvas', Food_put f p, n') /\
     unoccupied s f p) /\
  (forall (g : Food.t) (request : Z), refill_request cfg g = Some request -> 0 < request).
Proof.
  intros Hs Hf Hn Hfp. split; [|split].
  - intros fuel canvas' f' n' E.
    destruct (Food_placeFood_returns fuel rnd s Hs _ _ _ _ _ _ _ Hf E)
      as (added & Hcells & Hlen & Hcount & _).
    split; [unfold Food.getCount; lia|].
    destruct added as [|p [|q added]]; simpl in Hlen; [lia | | lia].
    by exists p.
  - intros Hroom k Hfree.
    destruct (Food_placeFood_first_free rnd s f numToPlace Hs ltac:(lia) ltac:(lia)
                k n canvas Hfree) as (j & _ & Hfj & E).
    by eexists _, _, _.
  - intros g request. unfold refill_request, Food.getCount.
    destruct (REFILL_IMMEDIATELY cfg).
    + destruct (Z.ltb_spec (Food.m_foodCount g) (FOOD_POINTS cfg)); intros; simplify_eq. lia.
    + destruct (Z.eqb_spec (Food.m_foodCount g) 0); intros; simplify_eq. lia.
Qed.

Lemma placeFood_nonpositive_places_one_witness :
  exists (canvas' : Matrix.t) (p : point) (n' : nat),
    Food.placeFood 4 rnd_demo blank snake_at_edge food_single 0 0
    = Ok (canvas', Food_put food_single p, n') /\
    Food.getCount (Food_put food_single p) = 2.
Proof.
  destruct (placeFood_nonpositive_places_one sketch rnd_demo blank snake_at_edge food_single
              0 0 snake_at_edge_fits food_single_fits) as (_ & Hone & _).
  - lia.
  - simpl. lia.
  - destruct (Hone ltac:(unfold Food.capacity; simpl; lia) 3%nat)
      as (canvas' & p & n' & E & _).
    + apply (bool_decide_unpack _). by vm_compute.
    + exists canvas', p, n'. split; [exact E | reflexivity].
Defined.

(** ** Snake::cut *)

(** The shifting loop moves the [todo] slots behind index [n] one place down
    and leaves the other slots alone. *)
Lemma Snake_cut_loop_spec (todo : nat) :
  forall (arr : list point) (n : nat),
  (n + todo < length arr)%nat ->
  exists arr' : list point,
    Snake.cut_loop arr (Z.of_nat n) todo = Ok arr' /\
    length arr' = length arr /\
    forall j : nat,
      arr' !! j = if decide (n <= j < n + todo)%nat then arr !! S j else arr !! j.
Proof.
  induction todo as [|todo IH]; intros arr n Hlen; simpl.
  - exists arr. split; [done|]. split; [done|].
    intros j. rewrite decide_False by lia. done.
  - destruct (lookup_lt_is_Some_2 arr (S n)) as [v Hv]; [lia|].
    replace (Z.of_nat n + 1) with (Z.of_nat (S n)) by lia.
    rewrite (rd_nat _ _ _ Hv). simpl. rewrite wr_nat by lia. simpl.
    destruct (IH (<[n := v]> arr) (S n)) as (arr' & E & Hl & Hlook).
    { rewrite length_insert. lia. }
    exists arr'. split; [done|]. rewrite length_insert in Hl. split; [done|].
    intros j. rewrite Hlook.
    destruct (decide (j = n)) as [->|Hjn].
    + rewrite decide_False by lia. rewrite decide_True by lia.
      rewrite list_lookup_insert_eq by lia. done.
    + destruct (decide (S n <= j < S n + todo)%nat).
      * rewrite decide_True by lia. by rewrite list_lookup_insert_ne by lia.
      * rewrite decide_False by lia. by rewrite list_lookup_insert_ne by lia.
Qed.

(** [cut] drops the tail cell and keeps the other cells in order. *)
Lemma Snake_cut_spec (canvas : Matrix.t) (s : Snake.t) :
  1 <= Snake.m_currentLength s < Snake.capacity s ->
  exists (tail : point) (s' : Snake.t),
    Snake.getTail s = Ok tail /\
    Snake.cut canvas s = Ok (Matrix.setPixel canvas tail false, s') /\
    Snake.m_currentLength s' = Snake.m_currentLength s - 1 /\
    Snake.capacity s' = Snake.capacity s /\
    Snake.cells s = tail :: Snake.cells s'.
Proof.
  intros Hlen. unfold Snake.capacity in *.
  destruct (lookup_lt_is_Some_2 (Snake.m_snake s) 0) as [tail Htail]; [lia|].
  destruct (Snake_cut_loop_spec (Z.to_nat (Snake.m_currentLength s)) (Snake.m_snake s) 0)
    as (arr' & E & Hl & Hlook); [lia|].
  pose proof (rd_nat _ 0%nat _ Htail) as Hrd.
  change (Z.of_nat 0) with 0 in Hrd, E.
  eexists tail, _. split; [exact Hrd|].
  unfold Snake.cut, Snake.getTail. rewrite Hrd. simpl. rewrite E. simpl.
  split; [done|]. split; [done|]. split; [simpl; by rewrite Hl|].
  unfold Snake.cells. simpl. apply list_eq. intros [|j]; simpl.
  - rewrite lookup_take_lt by lia. done.
  - rewrite !lookup_take. rewrite Hlook.
    destruct (decide (j < Z.to_nat (Snake.m_currentLength s - 1))%nat).
    + rewrite decide_True by lia. rewrite decide_True by lia. done.
    + rewrite decide_False by lia. done.
Qed.

(** ** Reading a run backwards *)

Lemma bind_Ok_inv {A B : Type} (m : result A) (k : A -> result B) (b : B) :
  m ≫= k = Ok b -> exists a, m = Ok a /\ k a = Ok b.
Proof. destruct m as [a| |]; simpl; intros; [by exists a | done | done]. Qed.

Tactic Notation "ok_inv" hyp(H) "as" simple_intropattern(pat) ident(E) :=
  apply bind_Ok_inv in H as (pat & E & H); simpl in H.

Lemma Snake_extend_length (canvas : Matrix.t) (s : Snake.t) (dir : Direction)
    (canvas' : Matrix.t) (s' : Snake.t) :
  Snake.extend canvas s dir = Ok (canvas', s') ->
  Snake.getLength s' = Snake.getLength s + 1.
Proof.
  unfold Snake.extend. intros H.
  ok_inv H as head E1. ok_inv H as hx E2. ok_inv H as hy E3. ok_inv H as arr E4.
  by simplify_eq.
Qed.

Lemma Snake_cut_length (canvas : Matrix.t) (s : Snake.t) (canvas' : Matrix.t) (s' : Snake.t) :
  Snake.cut canvas s = Ok (canvas', s') ->
  Snake.getLength s' = Snake.getLength s - 1.
Proof.
  unfold Snake.cut. intros H. ok_inv H as tail E1. ok_inv H as arr E2. by simplify_eq.
Qed.

Lemma Snake_new_length (canvas : Matrix.t) (initLength maxLength : Z) (start : point)
    (dir : Direction) (canvas' : Matrix.t) (s : Snake.t) :
  Snake.new canvas initLength maxLength start dir = Ok (canvas', s) ->
  Snake.getLength s = initLength.
Proof.
  unfold Snake.new. intros H. ok_inv H as [m arr] E1. by simplify_eq.
Qed.

Lemma initGame_length (cfg : Config) (dir : Direction) (m : Matrix.t) (s : Snake.t)
    (f : Food.t) :
  initGame cfg dir = Ok (m, s, f) -> Snake.getLength s = INIT_SNAKE_LENGTH cfg.
Proof.
  unfold initGame. intros H. ok_inv H as [m' s'] E1. simplify_eq.
  by eapply Snake_new_length.
Qed.

Lemma setup_length (cfg : Config) (fuel : nat) (rnd : nat -> point) (g : Game) :
  setup cfg fuel rnd = Ok g -> Snake.getLength (snake g) = INIT_SNAKE_LENGTH cfg.
Proof.
  unfold setup. intros H. ok_inv H as [[m s] f] E1. ok_inv H as [[m' f'] n] E2.
  simplify_eq. simpl. by eapply initGame_length.
Qed.

(** [advance] is [extend], then nothing more for the snake when food was
    eaten, and [cut] otherwise. *)
Lemma advance_inv (cfg : Config) (joystick : Z * Z) (g g1 : Game) (eaten : bool) :
  advance cfg joystick g = Ok (g1, eaten) ->
  exists (m : Matrix.t) (s : Snake.t) (head : point) (f : Food.t),
    Snake.extend (matrix g) (snake g)
                 (steer (direct g) (readDirection cfg joystick (direct g))) = Ok (m, s) /\
    Snake.getHead s = Ok head /\
    Food.tryEat (food g) head = Ok (eaten, f) /\
    food g1 = f /\
    direct g1 = steer (direct g) (readDirection cfg joystick (direct g)) /\
    drawn g1 = drawn g /\
    if eaten then snake g1 = s /\ matrix g1 = m
    else Snake.cut m s = Ok (matrix g1, snake g1).
Proof.
  unfold advance. intros H.
  ok_inv H as [m s] E1. ok_inv H as head E2. ok_inv H as [b f] E3.
  exists m, s, head, f. split; [done|]. split; [done|].
  destruct b.
  - simplify_eq. simpl. done.
  - ok_inv H as [m' s'] E4. simplify_eq. simpl. done.
Qed.

Lemma advance_length (cfg : Config) (joystick : Z * Z) (g g1 : Game) (eaten : bool) :
  advance cfg joystick g = Ok (g1, eaten) ->
  Snake.getLength (snake g1) = Snake.getLength (snake g) + (if eaten then 1 else 0).
Proof.
  intros H. apply advance_inv in H as (m & s & head & f & Hext & _ & _ & _ & _ & _ & H).
  apply Snake_extend_length in Hext.
  destruct eaten.
  - destruct H as [-> _]. lia.
  - apply Snake_cut_length in H. lia.
Qed.

Lemma refill_snake (cfg : Config) (fuel : nat) (rnd : nat -> point) (g g' : Game) :
  refill cfg fuel rnd g = Ok g' -> snake g' = snake g /\ direct g' = direct g.
Proof.
  unfold refill. destruct (refill_request cfg (food g)); intros H.
  - ok_inv H as [[m f] n] E1. by simplify_eq.
  - by simplify_eq.
Qed.

Lemma blink_loop_same_size (s : Snake.t) (todo : nat) :
  forall (m : Matrix.t) (v : bool) (m' : Matrix.t),
  blink_loop m s v todo = Ok m' ->
  Matrix.getRowsCount m' = Matrix.getRowsCount m /\
  Matrix.getColumnsCount m' = Matrix.getColumnsCount m.
Proof.
  induction todo as [|todo IH]; intros m v m' H; simpl in H.
  - by simplify_eq.
  - ok_inv H as head E. apply IH in H as [-> ->]. done.
Qed.

Lemma blink_loop_Ok (s : Snake.t) (head : point) (todo : nat) :
  Snake.getHead s = Ok head ->
  forall (m : Matrix.t) (v : bool), exists m', blink_loop m s v todo = Ok m'.
Proof.
  intros Hhead. induction todo as [|todo IH]; intros m v; simpl.
  - by exists m.
  - rewrite Hhead. simpl. apply IH.
Qed.

(** How [finish] ends: in a new game after [playLose] or [playWin], or with
    the snake and the food it was given. *)
Lemma finish_inv (cfg : Config) (g g' : Game) (o : Outcome) :
  finish cfg g = Ok (g', o) ->
  exists collision : bool,
    Snake.checkSelfCollision (snake g) = Ok collision /\
    match o with
    | Lost => collision = true /\
              initGame cfg (direct g) = Ok (matrix g', snake g', food g')
    | Won => collision = false /\
             Snake.getLength (snake g) = MAX_SNAKE_LENGTH cfg /\
             initGame cfg (direct g) = Ok (matrix g', snake g', food g')
    | Running => collision = false /\
                 Snake.getLength (snake g) <> MAX_SNAKE_LENGTH cfg /\
                 snake g' = snake g /\ food g' = food g /\
                 direct g' = direct g /\ drawn g' = drawn g /\
                 Matrix.getRowsCount (matrix g') = Matrix.getRowsCount (matrix g) /\
                 Matrix.getColumnsCount (matrix g') = Matrix.getColumnsCount (matrix g)
    end.
Proof.
  unfold finish. intros H. ok_inv H as collision E1. exists collision. split; [done|].
  destruct collision.
  - ok_inv H as g0 E2. simplify_eq. split; [done|].
    unfold playLose in E2. ok_inv E2 as [[m s] f] E3. by simplify_eq.
  - destruct (Z.eqb_spec (Snake.getLength (snake g)) (MAX_SNAKE_LENGTH cfg)) as [Hmax|Hmax].
    + ok_inv H as g0 E2. simplify_eq. split; [done|]. split; [done|].
      unfold playWin in E2. ok_inv E2 as [[m s] f] E3. by simplify_eq.
    + ok_inv H as m E2. simplify_eq. simpl.
      apply blink_loop_same_size in E2. done.
Qed.

Lemma loop_inv (cfg : Config) (fuel : nat) (rnd : nat -> point) (joystick : Z * Z)
    (g g' : Game) (o : Outcome) :
  loop cfg fuel rnd joystick g = Ok (g', o) ->
  exists (g1 : Game) (eaten : bool) (g2 : Game),
    advance cfg joystick g = Ok (g1, eaten) /\
    refill cfg fuel rnd g1 = Ok g2 /\
    finish cfg g2 = Ok (g', o).
Proof.
  unfold loop. intros H. ok_inv H as [g1 eaten] E1. ok_inv H as g2 E2.
  by exists g1, eaten, g2.
Qed.

(** ** The length of the snake *)

(** Between two calls of [loop()] the snake is shorter than the maximum. *)
Lemma boundary_length (cfg : Config) (g : Game) :
  INIT_SNAKE_LENGTH cfg < MAX_SNAKE_LENGTH cfg ->
  boundary cfg g ->
  INIT_SNAKE_LENGTH cfg <= Snake.getLength (snake g) < MAX_SNAKE_LENGTH cfg.
Proof.
  intros Hcfg Hb. induction Hb as [dir level n m s f E | fuel rnd g E
                                  | fuel rnd joystick g g' o Hb IH E].
  - apply initGame_length in E. simpl. lia.
  - apply setup_length in E. lia.
  - apply loop_inv in E as (g1 & eaten & g2 & Hadv & Href & Hfin).
    apply advance_length in Hadv. apply refill_snake in Href as [Href _].
    apply finish_inv in Hfin as (collision & _ & Hfin).
    rewrite Href in Hfin. destruct o.
    + destruct Hfin as (_ & Hne & -> & _). destruct eaten; lia.
    + destruct Hfin as (_ & Hinit). apply initGame_length in Hinit. lia.
    + destruct Hfin as (_ & _ & Hinit). apply initGame_length in Hinit. lia.
Qed.

(** C4: from a new game on, every value of [getLength()] in the course of a
    call of [loop()] lies between the initial length and the maximum plus
    one, and between two calls it is never the maximum plus one.  In fact
    the length is below the maximum between two calls and at most the
    maximum inside a call. *)
Theorem length_stays_in_bounds (cfg : Config) (g : Game) :
  INIT_SNAKE_LENGTH cfg < MAX_SNAKE_LENGTH cfg ->
  boundary cfg g ->
  (INIT_SNAKE_LENGTH cfg <= Snake.getLength (snake g) <= MAX_SNAKE_LENGTH cfg + 1 /\
   Snake.getLength (snake g) <> MAX_SNAKE_LENGTH cfg + 1 /\
   Snake.getLength (snake g) < MAX_SNAKE_LENGTH cfg) /\
  forall (fuel : nat) (rnd : nat -> point) (joystick : Z * Z) (n : Z),
    length_during cfg fuel rnd joystick g n ->
    INIT_SNAKE_LENGTH cfg <= n <= MAX_SNAKE_LENGTH cfg + 1 /\
    n <= MAX_SNAKE_LENGTH cfg.
Proof.
  intros Hcfg Hb. pose proof (boundary_length cfg g Hcfg Hb) as Hg.
  split; [lia|].
  intros fuel rnd joystick n Hn. destruct Hn as [|m s E | g1 eaten E | g1 eaten g2 E1 E2 | g' o E].
  - lia.
  - apply Snake_extend_length in E. lia.
  - apply advance_length in E. destruct eaten; lia.
  - apply advance_length in E1. apply refill_snake in E2 as [-> _]. destruct eaten; lia.
  - pose proof (boundary_length cfg g' Hcfg (boundary_loop cfg _ _ _ _ _ _ Hb E)). lia.
Qed.

Lemma game_before_meal_boundary : boundary sketch game_before_meal.
Proof.
  destruct (setup sketch 4 rnd_demo) as [g0| |] eqn:E0; [|by vm_compute in E0..].
  apply (boundary_loop sketch 0 rnd_demo (512, 512) g0 game_before_meal Running).
  - by eapply boundary_setup.
  - vm_compute in E0. simplify_eq. by vm_compute.
Defined.

Lemma length_stays_in_bounds_witness :
  2 <= Snake.getLength (snake game_before_meal) <= 13 /\
  Snake.getLength (snake game_before_meal) <> 13 /\
  forall m s, Snake.extend (matrix game_before_meal) (snake game_before_meal) DOWN = Ok (m, s) ->
              2 <= Snake.getLength s <= 13.
Proof.
  destruct (length_stays_in_bounds sketch game_before_meal) as [(H1 & H2 & _) H3].
  - simpl. lia.
  - exact game_before_meal_boundary.
  - split; [exact H1|]. split; [exact H2|].
    intros m s E.
    apply (H3 0%nat rnd_demo (512, 512) (Snake.getLength s)).
    by apply (length_after_extend sketch 0 rnd_demo (512, 512) game_before_meal m s).
Defined.

(** ** One step of the snake *)

Lemma same_size_refl (m : Matrix.t) : same_size m m.
Proof. by split. Qed.

Lemma same_size_trans (m1 m2 m3 : Matrix.t) :
  same_size m1 m2 -> same_size m2 m3 -> same_size m1 m3.
Proof. unfold same_size. intros [-> ->] [-> ->]. done. Qed.

Lemma same_size_setPixel (m : Matrix.t) (p : point) (v : bool) :
  same_size m (Matrix.setPixel m p v).
Proof. by split. Qed.

(** [advance] from a snake with a head and two spare slots: [extend] appends
    the new head; when the new head is a food cell that cell is eaten and the
    snake stays extended, otherwise [cut] removes the tail. *)
Lemma advance_spec (cfg : Config) (joystick : Z * Z) (g : Game) :
  1 <= Snake.getLength (snake g) ->
  Snake.getLength (snake g) + 1 < Snake.capacity (snake g) ->
  0 <= Food.getCount (food g) <= Food.capacity (food g) ->
  Matrix.getColumnsCount (matrix g) <> 0 ->
  Matrix.getRowsCount (matrix g) <> 0 ->
  exists (m1 : Matrix.t) (s1 : Snake.t) (head' : point) (g1 : Game) (eaten : bool),
    Snake.extend (matrix g) (snake g)
                 (steer (direct g) (readDirection cfg joystick (direct g))) = Ok (m1, s1) /\
    Snake.getHead s1 = Ok head' /\
    Snake.cells s1 = Snake.cells (snake g) ++ [head'] /\
    Snake.getTail s1 = Snake.getTail (snake g) /\
    advance cfg joystick g = Ok (g1, eaten) /\
    (eaten = true <-> head' ∈ Food.cells (food g)) /\
    Snake.getHead (snake g1) = Ok head' /\
    same_size (matrix g) (matrix g1) /\
    Snake.capacity (snake g1) = Snake.capacity (snake g) /\
    Food.capacity (food g1) = Food.capacity (food g) /\
    0 <= Food.getCount (food g1) <= Food.getCount (food g) /\
    (eaten = true ->
     snake g1 = s1 /\
     Food.getCount (food g1) = Food.getCount (food g) - 1 /\
     Food.cells (food g) ≡ₚ head' :: Food.cells (food g1)) /\
    (eaten = false ->
     food g1 = food g /\
     Snake.getLength (snake g1) = Snake.getLength (snake g) /\
     exists tail : point,
       Snake.getTail (snake g) = Ok tail /\
       Snake.cells s1 = tail :: Snake.cells (snake g1)).
Proof.
  intros Hlen Hcap Hfood Hc Hr.
  destruct g as [m [len arr] f dir level n]. unfold Snake.getLength, Snake.capacity in *.
  simpl in *.
  set (d := steer dir (readDirection cfg joystick dir)).
  destruct (lookup_lt_is_Some_2 arr (Z.to_nat (len - 1))) as [head Hhead]; [lia|].
  assert (Hget : Snake.getHead {| Snake.m_currentLength := len; Snake.m_snake := arr |}
                 = Ok head).
  { unfold Snake.getHead. apply rd_Ok_iff. simpl. split; [lia | done]. }
  assert (Hroom : Snake.m_currentLength {| Snake.m_currentLength := len; Snake.m_snake := arr |}
                  < Snake.capacity {| Snake.m_currentLength := len; Snake.m_snake := arr |})
    by (unfold Snake.capacity; simpl; lia).
  pose proof (Snake_extend_spec m _ d head Hroom Hc Hr Hget) as Eext.
  cbv zeta in Eext. simpl in Eext.
  set (head' := {| x := Z.rem (x head + x (makeDirectionVector d) + Matrix.getColumnsCount m)
                            (Matrix.getColumnsCount m);
                   y := Z.rem (y head + y (makeDirectionVector d) + Matrix.getRowsCount m)
                            (Matrix.getRowsCount m) |}) in *.
  set (s1 := {| Snake.m_currentLength := len + 1;
                Snake.m_snake := <[Z.to_nat len := head']> arr |}) in *.
  assert (Hget1 : Snake.getHead s1 = Ok head').
  { unfold Snake.getHead. simpl.
    replace (len + 1 - 1) with (Z.of_nat (Z.to_nat len)) by lia.
    apply rd_nat. apply list_lookup_insert_eq. lia. }
  assert (Hcells1 : Snake.cells s1
                    = Snake.cells {| Snake.m_currentLength := len; Snake.m_snake := arr |}
                      ++ [head']).
  { apply Snake_cells_snoc. lia. }
  assert (Htail1 : Snake.getTail s1
                   = Snake.getTail {| Snake.m_currentLength := len; Snake.m_snake := arr |}).
  { unfold Snake.getTail, rd. simpl. by rewrite list_lookup_insert_ne by lia. }
  destruct (Food_tryEat_spec f head' Hfood) as (b & f' & Etry & Hiff & Hyes & Hno).
  assert (Eadv : exists g1, advance cfg joystick
                   {| matrix := m; snake := {| Snake.m_currentLength := len;
                                               Snake.m_snake := arr |};
                      food := f; direct := dir; buzzer := level; drawn := n |} = Ok (g1, b) /\
                 food g1 = f' /\
                 same_size m (matrix g1) /\
                 if b then snake g1 = s1
                 else exists tail,
                     Snake.getTail s1 = Ok tail /\
                     Snake.m_currentLength (snake g1) = len /\
                     Snake.capacity (snake g1) = Snake.capacity s1 /\
                     Snake.cells s1 = tail :: Snake.cells (snake g1)).
  { unfold advance. simpl. fold d. rewrite Eext. simpl. rewrite Hget1. simpl.
    rewrite Etry. simpl. destruct b.
    - eexists. split; [done|]. simpl. split; [done|]. split; [|done].
      apply same_size_setPixel.
    - destruct (Snake_cut_spec (Matrix.setPixel m head' true) s1)
        as (tail & s' & Ht & Ecut & Hl & Hc' & Hcs).
      { unfold Snake.capacity. simpl. rewrite length_insert. lia. }
      rewrite Ecut. simpl. eexists. split; [done|]. simpl. split; [done|].
      split; [by split|]. exists tail. split; [done|]. split; [simpl in Hl; lia|].
      split; done. }
  destruct Eadv as (g1 & Eadv & Hf1 & Hsize & Hsnake).
  exists (Matrix.setPixel m head' true), s1, head', g1, b.
  split; [done|]. split; [done|]. split; [done|]. split; [done|]. split; [done|].
  split; [done|].
  assert (Hfcap : Food.capacity f' = Food.capacity f).
  { destruct b.
    - destruct Hyes as (_ & _ & i & last & _ & _ & _ & Harr); [done|].
      unfold Food.capacity. by rewrite Harr, length_insert.
    - by rewrite Hno. }
  assert (Hfcount : 0 <= Food.getCount f' <= Food.getCount f).
  { destruct b.
    - destruct Hyes as (Hcount & Hperm & _); [done|].
      apply Permutation_length in Hperm. unfold Food.cells in Hperm.
      rewrite length_take in Hperm. simpl in Hperm. unfold Food.getCount in *. lia.
    - rewrite Hno by done. lia. }
  subst f'.
  destruct b.
  - rewrite Hsnake. split; [done|]. split; [done|].
    split; [unfold Snake.capacity; simpl; by rewrite length_insert|].
    split; [done|]. split; [done|].
    split; [|done]. intros _. destruct Hyes as (Hcount & Hperm & _); done.
  - destruct Hsnake as (tail & Ht & Hl & Hc' & Hcs).
    split.
    { unfold Snake.getHead. rewrite Hl.
      assert (Hlast : Snake.cells s1 !! Z.to_nat len = Some head').
      { rewrite Hcells1. unfold Snake.cells. simpl.
        rewrite lookup_app_r; rewrite length_take; [|lia].
        replace (Z.to_nat len - Z.to_nat len `min` length arr)%nat with 0%nat by lia. done. }
      rewrite Hcs in Hlast.
      replace (Z.to_nat len) with (S (Z.to_nat (len - 1))) in Hlast by lia.
      simpl in Hlast. unfold Snake.cells in Hlast. rewrite Hl in Hlast.
      rewrite lookup_take_lt in Hlast by lia.
      apply rd_Ok_iff. split; [lia | done]. }
    split; [done|].
    split; [unfold Snake.capacity in Hc'; rewrite Hc'; simpl; by rewrite length_insert|].
    split; [done|]. split; [done|].
    split; [done|]. intros _. split; [by apply Hno|]. split; [done|].
    exists tail. split; [by rewrite <- Htail1 | done].
Qed.

(** ** New games *)

Lemma Snake_new_loop_Ok (todo : nat) :
  forall (canvas : Matrix.t) (arr : list point) (pos dv : point) (n : nat),
  (n + todo <= length arr)%nat ->
  exists (canvas' : Matrix.t) (arr' : list point),
    Snake.new_loop canvas arr pos dv (Z.of_nat n) todo = Ok (canvas', arr') /\
    length arr' = length arr /\
    same_size canvas canvas'.
Proof.
  induction todo as [|todo IH]; intros canvas arr pos dv n Hlen; simpl.
  - exists canvas, arr. split; [done|]. split; [done | apply same_size_refl].
  - rewrite wr_nat by lia. simpl.
    replace (Z.of_nat n + 1) with (Z.of_nat (S n)) by lia.
    destruct (IH (Matrix.setPixel canvas pos true) (<[n := pos]> arr) (point_add pos dv) dv (S n))
      as (canvas' & arr' & E & Hl & Hsize).
    { rewrite length_insert. lia. }
    exists canvas', arr'. split; [done|]. rewrite length_insert in Hl. split; [done|].
    eapply same_size_trans; [apply same_size_setPixel | done].
Qed.

(** [initGame()] succeeds when the initial snake fits its array. *)
Lemma initGame_Ok (cfg : Config) (dir : Direction) :
  INIT_SNAKE_LENGTH cfg <= MAX_SNAKE_LENGTH cfg + 1 ->
  exists (m : Matrix.t) (s : Snake.t),
    initGame cfg dir = Ok (m, s, Food.new (FOOD_POINTS cfg)) /\
    Snake.getLength s = INIT_SNAKE_LENGTH cfg /\
    Snake.capacity s = Z.max 0 (MAX_SNAKE_LENGTH cfg + 1) /\
    Matrix.getRowsCount m = ROWS cfg /\
    Matrix.getColumnsCount m = COLUMNS cfg.
Proof.
  intros Hfit. unfold initGame, Snake.new.
  destruct (Snake_new_loop_Ok (Z.to_nat (INIT_SNAKE_LENGTH cfg))
              (Matrix.new (ROWS cfg) (COLUMNS cfg))
              (replicate (Z.to_nat (MAX_SNAKE_LENGTH cfg + 1)) junk)
              {| x := COLUMNS cfg - 1; y := 0 |} (makeDirectionVector dir) 0)
    as (canvas' & arr' & E & Hl & Hrows & Hcols).
  { rewrite length_replicate. lia. }
  change (Z.of_nat 0) with 0 in E. rewrite E. simpl.
  eexists _, _. split; [done|]. split; [done|].
  split; [unfold Snake.capacity; simpl; rewrite Hl, length_replicate; lia|].
  split; done.
Qed.

Lemma Food_new_shape (maxFoodCount : Z) :
  Food.getCount (Food.new maxFoodCount) = 0 /\
  Food.capacity (Food.new maxFoodCount) = Z.max 0 maxFoodCount /\
  Food.cells (Food.new maxFoodCount) = [].
Proof.
  unfold Food.new, Food.capacity, Food.cells. simpl.
  split; [done|]. split; [rewrite length_replicate; lia | done].
Qed.

Lemma Food_placeFood_same_size (fuel : nat) (rnd : nat -> point) (s : Snake.t) :
  forall (canvas : Matrix.t) (f : Food.t) (numToPlace : Z) (n : nat)
         (canvas' : Matrix.t) (f' : Food.t) (n' : nat),
  Food.placeFood fuel rnd canvas s f numToPlace n = Ok (canvas', f', n') ->
  same_size canvas canvas'.
Proof.
  induction fuel as [|fuel IH]; intros canvas f numToPlace n canvas' f' n' H; simpl in H.
  - done.
  - ok_inv H as onSnake E1. ok_inv H as free E2. destruct free.
    + ok_inv H as arr E3. destruct (numToPlace - 1 <=? 0).
      * simplify_eq. apply same_size_setPixel.
      * apply IH in H. eapply same_size_trans; [apply same_size_setPixel | done].
    + by eapply IH.
Qed.

(** What [refill] leaves when it returns. *)
Lemma refill_spec (cfg : Config) (fuel : nat) (rnd : nat -> point) (g g' : Game) :
  0 <= Snake.getLength (snake g) <= Snake.capacity (snake g) ->
  0 <= Food.getCount (food g) <= Food.capacity (food g) ->
  refill cfg fuel rnd g = Ok g' ->
  snake g' = snake g /\
  direct g' = direct g /\
  same_size (matrix g) (matrix g') /\
  Food.capacity (food g') = Food.capacity (food g) /\
  Food.getCount (food g') <= Food.capacity (food g') /\
  Food.getCount (food g')
  = Food.getCount (food g) + match refill_request cfg (food g) with
                             | Some request => Z.max 1 request
                             | None => 0
                             end.
Proof.
  intros Hs Hf. unfold refill. destruct (refill_request cfg (food g)) as [request|]; intros H.
  - ok_inv H as [[m f] n] E1. simplify_eq. simpl.
    pose proof (Food_placeFood_same_size _ _ _ _ _ _ _ _ _ _ E1) as Hsize.
    destruct (Food_placeFood_returns _ _ _ Hs _ _ _ _ _ _ _ Hf E1)
      as (added & _ & _ & Hcount & Hcap & Hle & _).
    done.
  - simplify_eq. split; [done|]. split; [done|]. split; [apply same_size_refl|].
    split; [done|]. split; [lia | lia].
Qed.

Lemma initGame_well_formed (cfg : Config) (dir : Direction) (level : bool) (n : nat)
    (m : Matrix.t) (s : Snake.t) (f : Food.t) :
  sane cfg ->
  initGame cfg dir = Ok (m, s, f) ->
  well_formed cfg {| matrix := m; snake := s; food := f; direct := dir;
                     buzzer := level; drawn := n |} /\
  Food.getCount f = 0.
Proof.
  intros (Hinit & Hrows & Hcols & Hfood) E.
  destruct (initGame_Ok cfg dir) as (m0 & s0 & E0 & Hlen & Hcap & Hr & Hc); [lia|].
  rewrite E0 in E. simplify_eq.
  destruct (Food_new_shape (FOOD_POINTS cfg)) as (Hcount & Hfcap & _).
  unfold well_formed. cbn [matrix snake food]. rewrite Hlen, Hcap, Hcount, Hfcap.
  split; [|done]. repeat split; try done; lia.
Qed.

(** Between two calls of [loop()] the objects are well formed: no call of
    [loop()] starts with a snake that fills its array. *)
Lemma boundary_well_formed (cfg : Config) (g : Game) :
  sane cfg -> boundary cfg g -> well_formed cfg g.
Proof.
  intros Hsane Hb. induction Hb as [dir level n m s f E | fuel rnd g E
                                   | fuel rnd joystick g g' o Hb IH E].
  - by apply initGame_well_formed.
  - unfold setup in E. ok_inv E as [[m s] f] E1. ok_inv E as [[m' f'] n] E2.
    simplify_eq.
    destruct (initGame_well_formed cfg DOWN false 0%nat m s f Hsane E1)
      as [(Hlen & Hcap & Hcount & Hfcap & Hr & Hc) Hzero].
    simpl in *.
    pose proof (Food_placeFood_same_size _ _ _ _ _ _ _ _ _ _ E2) as [Hr' Hc'].
    assert (Hs : 0 <= Snake.m_currentLength s <= Snake.capacity s)
      by (unfold Snake.getLength in *; lia).
    assert (Hf : 0 <= Food.m_foodCount f <= Food.capacity f)
      by (unfold Food.getCount in *; lia).
    destruct (Food_placeFood_returns _ _ s Hs _ _ _ _ _ _ _ Hf E2)
      as (added & _ & _ & Hcount' & Hcap' & Hle & _).
    unfold well_formed, Food.getCount in *. simpl.
    repeat split; try done; try lia.
  - destruct IH as (Hlen & Hcap & Hcount & Hfcap & Hr & Hc).
    destruct Hsane as (Hinit & Hrows & Hcols & Hfood).
    apply loop_inv in E as (g1 & eaten & g2 & Hadv & Href & Hfin).
    destruct (advance_spec cfg joystick g)
      as (m1 & s1 & head' & g1' & eaten' & _ & _ & _ & _ & Hadv' & _ & _ & Hsize1 & Hcap1
          & Hfcap1 & Hcount1 & _); try lia.
    rewrite Hadv in Hadv'. simplify_eq.
    pose proof (advance_length _ _ _ _ _ Hadv) as Hlen1.
    destruct (refill_spec cfg fuel rnd g1' g2) as (Hs2 & _ & Hsize2 & Hfcap2 & Hle2 & Hcount2);
      [destruct eaten'; lia | lia | done |].
    assert (Hnonneg : 0 <= Food.getCount (food g2))
      by (destruct (refill_request cfg (food g1')); lia).
    apply finish_inv in Hfin as (collision & _ & Hfin).
    destruct o.
    + destruct Hfin as (_ & Hne & Hs' & Hf' & _ & _ & Hr' & Hc').
      destruct Hsize1 as [Hr1 Hc1]. destruct Hsize2 as [Hr2 Hc2].
      unfold well_formed. rewrite Hs', Hf', Hs2, Hr', Hc'. rewrite Hs2 in Hne.
      repeat split; try lia; destruct eaten'; lia.
    + destruct Hfin as (_ & Hnew).
      destruct g' as [m' s' f' dir' level' n']. simpl in Hnew.
      apply (initGame_well_formed cfg _ level' n') in Hnew as [Hwf _]; [|done].
      unfold well_formed in *. simpl in *. done.
    + destruct Hfin as (_ & _ & Hnew).
      destruct g' as [m' s' f' dir' level' n']. simpl in Hnew.
      apply (initGame_well_formed cfg _ level' n') in Hnew as [Hwf _]; [|done].
      unfold well_formed in *. simpl in *. done.
Qed.

(** ** No access leaves its array *)


Lemma Snake_checkSelfCollision_Ok (s : Snake.t) :
  1 <= Snake.m_currentLength s <= Snake.capacity s ->
  exists b : bool, Snake.checkSelfCollision s = Ok b.
Proof.
  intros Hlen. unfold Snake.capacity in Hlen.
  destruct (lookup_lt_is_Some_2 (Snake.m_snake s) (Z.to_nat (Snake.m_currentLength s - 1)))
    as [head Hhead]; [lia|].
  unfold Snake.checkSelfCollision, Snake.getHead.
  rewrite (proj2 (rd_Ok_iff _ _ head)) by (split; [lia | done]). simpl.
  change 0 with (Z.of_nat 0).
  rewrite Snake_checkSelfCollision_loop_spec by (simpl; lia). by eexists.
Qed.

(** The checks and the blink loop return for every snake with a head inside
    its array. *)
Lemma finish_Ok (cfg : Config) (g : Game) :
  INIT_SNAKE_LENGTH cfg <= MAX_SNAKE_LENGTH cfg + 1 ->
  1 <= Snake.m_currentLength (snake g) <= Snake.capacity (snake g) ->
  exists (g' : Game) (o : Outcome), finish cfg g = Ok (g', o).
Proof.
  intros Hfit Hs.
  destruct (Snake_checkSelfCollision_Ok (snake g) Hs) as [b Hb].
  destruct (initGame_Ok cfg (direct g) Hfit) as (m & s & Hnew & _).
  unfold finish. rewrite Hb. simpl.
  destruct b; [unfold playLose; rewrite Hnew; simpl; by eexists _, _|].
  destruct (Snake.getLength (snake g) =? MAX_SNAKE_LENGTH cfg);
    [unfold playWin; rewrite Hnew; simpl; by eexists _, _|].
  unfold Snake.checkSelfCollision in Hb. ok_inv Hb as head Hhead.
  destruct (blink_loop_Ok (snake g) head (Z.to_nat (2 * BLINK_FREQUENCY cfg)) Hhead
              (matrix g) false) as [m' ->].
  simpl. by eexists _, _.
Qed.


(** X11: a call of [loop()] that has at most one piece of food to place
    returns as soon as the stream draws an unoccupied point: [k + 1] rounds
    suffice when the draw number [k] from the current one is unoccupied. *)
Lemma loop_returns (cfg : Config) (rnd : nat -> point) (joystick : Z * Z) (g g1 : Game)
    (eaten : bool) (k : nat) :
  sane cfg ->
  boundary cfg g ->
  advance cfg joystick g = Ok (g1, eaten) ->
  match refill_request cfg (food g1) with
  | Some request => request <= 1 /\ unoccupied (snake g1) (food g1) (rnd (drawn g1 + k)%nat)
  | None => True
  end ->
  exists (g' : Game) (o : Outcome), loop cfg (S k) rnd joystick g = Ok (g', o).
Proof.
  intros Hsane Hb Hadv Hreq.
  destruct (boundary_well_formed cfg g Hsane Hb) as (Hlen & Hcap & Hcount & Hfcap & Hr & Hc).
  destruct Hsane as (Hinit & Hrows & Hcols & Hfood).
  destruct (advance_spec cfg joystick g)
    as (m1 & s1 & head' & g1' & eaten' & _ & _ & _ & _ & Hadv' & _ & _ & _ & Hcap1
        & Hfcap1 & Hcount1 & _); try lia.
  rewrite Hadv in Hadv'. simplify_eq.
  pose proof (advance_length _ _ _ _ _ Hadv) as Hlen1.
  assert (Hs1 : 1 <= Snake.m_currentLength (snake g1') <= Snake.capacity (snake g1'))
    by (unfold Snake.getLength in *; destruct eaten'; lia).
  assert (Href : exists g2, refill cfg (S k) rnd g1' = Ok g2 /\ snake g2 = snake g1').
  { unfold refill. destruct (refill_request cfg (food g1')) as [request|] eqn:Hrq;
      [|by exists g1'].
    destruct Hreq as [Hone Hfree].
    assert (Hroom : Food.m_foodCount (food g1') < Food.capacity (food g1')).
    { unfold refill_request, Food.getCount in *. destruct (REFILL_IMMEDIATELY cfg).
      - destruct (Z.ltb_spec (Food.m_foodCount (food g1')) (FOOD_POINTS cfg)); [lia | done].
      - destruct (Z.eqb_spec (Food.m_foodCount (food g1')) 0); [lia | done]. }
    destruct (Food_placeFood_first_free rnd (snake g1') (food g1') request
                ltac:(lia) ltac:(unfold Food.getCount in *; lia) Hone k (drawn g1')
                (matrix g1') Hfree) as (j & _ & _ & E).
    rewrite E. simpl. by eexists. }
  destruct Href as (g2 & Href & Hs2).
  destruct (finish_Ok cfg g2) as (g' & o & Hfin); [lia | by rewrite Hs2 |].
  exists g', o. unfold loop. rewrite Hadv. simpl. rewrite Href. simpl. exact Hfin.
Qed.

(** ** One call of loop() *)

(** C1, as the code has it: when the head that [extend] appends is an active
    food cell, then after the eating step (before the refill and the checks)
    the snake is one cell longer, the food count is one less and the tail is
    the same, [cut] not being called; otherwise [cut] is called and the length
    is the one at the start.  A call that goes on returns that snake, with the
    food count the refill leaves: [FOOD_POINTS] when refilling immediately.  A
    call that ends in [playLose] or [playWin] returns a new game. *)
Theorem tick_eats_or_cuts (cfg : Config) (joystick : Z * Z) (g : Game) :
  sane cfg ->
  boundary cfg g ->
  exists (m1 : Matrix.t) (s1 : Snake.t) (head' : point) (g1 : Game) (eaten : bool),
    Snake.extend (matrix g) (snake g)
                 (steer (direct g) (readDirection cfg joystick (direct g))) = Ok (m1, s1) /\
    Snake.getHead s1 = Ok head' /\
    advance cfg joystick g = Ok (g1, eaten) /\
    (eaten = true <-> head' ∈ Food.cells (food g)) /\
    (eaten = true ->
     snake g1 = s1 /\
     Snake.getLength (snake g1) = Snake.getLength (snake g) + 1 /\
     Food.getCount (food g1) = Food.getCount (food g) - 1 /\
     Snake.getTail (snake g1) = Snake.getTail (snake g)) /\
    (eaten = false ->
     (exists m', Snake.cut m1 s1 = Ok (m', snake g1)) /\
     Snake.getLength (snake g1) = Snake.getLength (snake g) /\
     food g1 = food g) /\
    (forall (fuel : nat) (rnd : nat -> point) (g' : Game) (o : Outcome),
       loop cfg fuel rnd joystick g = Ok (g', o) ->
       match o with
       | Running =>
           snake g' = snake g1 /\
           Food.getCount (food g')
           = Food.getCount (food g1) + match refill_request cfg (food g1) with
                                       | Some request => Z.max 1 request
                                       | None => 0
                                       end /\
           (REFILL_IMMEDIATELY cfg = true -> Food.getCount (food g') = FOOD_POINTS cfg)
       | Lost | Won =>
           Snake.getLength (snake g') = INIT_SNAKE_LENGTH cfg /\
           Food.getCount (food g') = 0
       end).
Proof.
  intros Hsane Hb.
  destruct (boundary_well_formed cfg g Hsane Hb) as (Hlen & Hcap & Hcount & Hfcap & Hr & Hc).
  pose proof Hsane as (Hinit & Hrows & Hcols & Hfood).
  destruct (advance_spec cfg joystick g)
    as (m1 & s1 & head' & g1 & eaten & Hext & Hhead & Hcells & Htail & Hadv & Hiff & _
        & Hsize1 & Hcap1 & Hfcap1 & Hcount1 & Hyes & Hno); try lia.
  pose proof (advance_length _ _ _ _ _ Hadv) as Hlen1.
  exists m1, s1, head', g1, eaten.
  split; [done|]. split; [done|]. split; [done|]. split; [done|].
  split; [|split].
  - intros ->. destruct Hyes as (Hs & Hc1 & _); [done|].
    split; [done|]. split; [lia|]. split; [done|]. by rewrite Hs.
  - intros ->. destruct Hno as (Hf & Hl & _); [done|]. split; [|done].
    apply advance_inv in Hadv as (m & s & head & f & Hext' & _ & _ & _ & _ & _ & Hcut).
    rewrite Hext in Hext'. simplify_eq. by exists (matrix g1).
  - intros fuel rnd g' o E.
    apply loop_inv in E as (g1' & eaten' & g2 & Hadv' & Href & Hfin).
    rewrite Hadv in Hadv'. simplify_eq.
    destruct (refill_spec cfg fuel rnd g1' g2) as (Hs2 & Hd2 & _ & _ & _ & Hcount2);
      [destruct eaten'; lia | lia | done |].
    apply finish_inv in Hfin as (collision & _ & Hfin).
    destruct o.
    + destruct Hfin as (_ & _ & Hs' & Hf' & _).
      rewrite Hs', Hf', Hs2. split; [done|]. split; [done|].
      intros Himm. rewrite Hcount2. unfold refill_request. rewrite Himm.
      destruct (Z.ltb_spec (Food.getCount (food g1')) (FOOD_POINTS cfg)); lia.
    + destruct Hfin as (_ & Hnew). split; [by eapply initGame_length|].
      destruct g' as [m' s' f' dir' level' n']. simpl in *.
      by apply (initGame_well_formed cfg _ level' n') in Hnew as [_ Hzero].
    + destruct Hfin as (_ & _ & Hnew). split; [by eapply initGame_length|].
      destruct g' as [m' s' f' dir' level' n']. simpl in *.
      by apply (initGame_well_formed cfg _ level' n') in Hnew as [_ Hzero].
Qed.

Lemma sketch_sane : sane sketch.
Proof. unfold sane. simpl. lia. Defined.

Lemma tick_eats_or_cuts_witness :
  exists (g1 : Game),
    advance sketch (512, 512) game_before_meal = Ok (g1, true) /\
    Snake.getLength (snake g1) = 3 /\ Food.getCount (food g1) = 1 /\
    Snake.getTail (snake g1) = Ok (Point 7 1).
Proof.
  destruct (tick_eats_or_cuts sketch (512, 512) game_before_meal sketch_sane
              game_before_meal_boundary)
    as (m1 & s1 & head' & g1 & eaten & Hext & Hhead & Hadv & Hiff & Hyes & _).
  vm_compute in Hext. simplify_eq. vm_compute in Hhead. simplify_eq.
  assert (eaten = true) as -> by (apply Hiff; apply list_elem_of_here).
  destruct Hyes as (_ & Hl & Hc & Ht); [done|].
  exists g1. split; [exact Hadv|]. split; [exact Hl|]. split; [exact Hc | exact Ht].
Defined.

(** C1 as the spec words it fails: in the sketch the call of [loop()] in
    which the snake eats returns with as much food as it started with. *)
Lemma tick_end_food_count_counterexample :
  exists (m1 : Matrix.t) (s1 : Snake.t) (g' : Game),
    Snake.extend (matrix game_before_meal) (snake game_before_meal)
                 (steer (direct game_before_meal)
                        (readDirection sketch (512, 512) (direct game_before_meal)))
    = Ok (m1, s1) /\
    Snake.getHead s1 = Ok (Point 7 3) /\
    Point 7 3 ∈ Food.cells (food game_before_meal) /\
    loop sketch 1 rnd_demo (512, 512) game_before_meal = Ok (g', Running) /\
    Food.getCount (food game_before_meal) = 2 /\
    Food.getCount (food g') = 2 /\
    Food.getCount (food g') <> Food.getCount (food game_before_meal) - 1.
Proof.
  eexists _, _, _.
  split; [by vm_compute|]. split; [by vm_compute|].
  split; [apply list_elem_of_here|].
  split; [by vm_compute|]. split; [done|]. split; [done|]. by vm_compute.
Qed.

(** C7: with the snake and the food as the refill left them, [loop()] first
    asks [checkSelfCollision]: when it is true the call ends in [playLose],
    whatever the length; only when it is false the length is compared with
    the maximum, and the call ends in [playWin] when they are equal; else the
    game goes on.  A call that ends in [playLose] or [playWin] returns what
    [initGame()] builds. *)
Theorem terminal_checks_in_order (cfg : Config) (fuel : nat) (rnd : nat -> point)
    (joystick : Z * Z) (g g1 : Game) (eaten : bool) (g2 : Game) (collision : bool) :
  INIT_SNAKE_LENGTH cfg <= MAX_SNAKE_LENGTH cfg + 1 ->
  advance cfg joystick g = Ok (g1, eaten) ->
  refill cfg fuel rnd g1 = Ok g2 ->
  Snake.checkSelfCollision (snake g2) = Ok collision ->
  exists (g' : Game) (o : Outcome),
    loop cfg fuel rnd joystick g = Ok (g', o) /\
    (collision = true -> o = Lost) /\
    (collision = false -> Snake.getLength (snake g2) = MAX_SNAKE_LENGTH cfg -> o = Won) /\
    (collision = false -> Snake.getLength (snake g2) <> MAX_SNAKE_LENGTH cfg -> o = Running) /\
    (o = Lost \/ o = Won -> initGame cfg (direct g2) = Ok (matrix g', snake g', food g')) /\
    (o = Running -> snake g' = snake g2 /\ food g' = food g2).
Proof.
  intros Hfit Hadv Href Hcoll.
  destruct (initGame_Ok cfg (direct g2) Hfit) as (m & s & Hnew & _).
  unfold loop. rewrite Hadv. simpl. rewrite Href. simpl.
  unfold finish. rewrite Hcoll. simpl.
  destruct collision.
  - unfold playLose. rewrite Hnew. simpl. eexists _, Lost. split; [done|].
    repeat split; try done; intros; simplify_eq.
  - destruct (Z.eqb_spec (Snake.getLength (snake g2)) (MAX_SNAKE_LENGTH cfg)) as [Hmax|Hmax].
    + unfold playWin. rewrite Hnew. simpl. eexists _, Won. split; [done|].
      repeat split; try done; intros; simplify_eq.
    + unfold Snake.checkSelfCollision in Hcoll. ok_inv Hcoll as head Hhead.
      destruct (blink_loop_Ok (snake g2) head (Z.to_nat (2 * BLINK_FREQUENCY cfg)) Hhead
                  (matrix g2) false) as [m' Hblink].
      rewrite Hblink. simpl. eexists _, Running. split; [done|].
      repeat split; try done; intros; simplify_eq.
      match goal with H : _ \/ _ |- _ => by destruct H end.
Qed.

Lemma terminal_checks_in_order_witness :
  exists g' : Game,
    loop sketch 0 rnd_demo (512, 1023) game_about_to_bite = Ok (g', Lost) /\
    Snake.getLength (snake g') = 2.
Proof.
  edestruct (terminal_checks_in_order sketch 0 rnd_demo (512, 1023) game_about_to_bite)
    as (g' & o & E & Hlost & _ & _ & Hnew & _).
  - simpl. lia.
  - reflexivity.
  - reflexivity.
  - reflexivity.
  - rewrite (Hlost eq_refl) in *. exists g'. split; [exact E|].
    specialize (Hnew (or_introl eq_refl)). apply initGame_length in Hnew. exact Hnew.
Defined.

(** * Further properties of the sketch *)

(** ** Matrix::setPixel *)







(** ** Snake::isOccupied *)

(** X2: [Snake::isOccupied] answers true exactly when one of the first
    [m_currentLength] slots holds the point; for a snake without cells it
    answers false. *)
Theorem isOccupied_exact (s : Snake.t) (p : point) :
  0 <= Snake.m_currentLength s <= Snake.capacity s ->
  exists b : bool,
    Snake.isOccupied s p = Ok b /\
    (b = true <->
     exists i : Z, 0 <= i < Snake.m_currentLength s /\ rd (Snake.m_snake s) i = Ok p) /\
    (Snake.m_currentLength s = 0 -> b = false).
Proof.
  intros Hs. exists (bool_decide (p ∈ Snake.cells s)).
  split; [by apply Snake_isOccupied_spec|]. split.
  - rewrite bool_decide_eq_true. unfold Snake.cells. rewrite elem_of_take. split.
    + intros (i & Hi & Hlt). exists (Z.of_nat i). split; [lia | by apply rd_nat].
    + intros (i & Hi & Hrd). apply rd_Ok_iff in Hrd as [_ Hrd].
      exists (Z.to_nat i). split; [done | lia].
  - intros Hzero. apply bool_decide_eq_false. unfold Snake.cells. rewrite Hzero.
    apply not_elem_of_nil.
Qed.

Lemma isOccupied_exact_witness :
  Snake.isOccupied snake_at_edge (Point 6 0) = Ok true /\
  Snake.isOccupied snake_at_edge (Point 0 0) = Ok false.
Proof.
  split.
  - destruct (isOccupied_exact snake_at_edge (Point 6 0)) as (b & E & Hiff & _).
    + unfold Snake.capacity. simpl. lia.
    + rewrite E. f_equal. apply Hiff. exists 1. split; [simpl; lia | reflexivity].
  - destruct (isOccupied_exact snake_at_edge (Point 0 0)) as (b & E & Hiff & _).
    + unfold Snake.capacity. simpl. lia.
    + rewrite E. f_equal. destruct b; [|done].
      destruct (proj1 Hiff eq_refl) as (i & Hi & Hrd).
      change (Snake.m_currentLength snake_at_edge) with 3 in Hi.
      assert (i = 0 \/ i = 1 \/ i = 2) as [-> | [-> | ->]] by lia;
        vm_compute in Hrd; congruence.
Defined.

(** ** Snake::cut *)

(** The shifting loop over a whole array reads the slot behind it. *)
Lemma Snake_cut_loop_full (todo : nat) :
  forall (arr : list point) (n : nat),
  (0 < todo)%nat ->
  (n + todo = length arr)%nat ->
  Snake.cut_loop arr (Z.of_nat n) todo = Fault.
Proof.
  induction todo as [|todo IH]; intros arr n Hpos Hlen; [lia|]. simpl.
  replace (Z.of_nat n + 1) with (Z.of_nat (S n)) by lia.
  destruct todo as [|todo].
  - unfold rd. destruct (Z.leb_spec 0 (Z.of_nat (S n))); [|done].
    rewrite Nat2Z.id. rewrite lookup_ge_None_2 by lia. done.
  - destruct (lookup_lt_is_Some_2 arr (S n)) as [v Hv]; [lia|].
    rewrite (rd_nat _ _ _ Hv). simpl. rewrite wr_nat by lia. simpl.
    apply IH; [lia | rewrite length_insert; lia].
Qed.

(** X3: [cut] removes the cell at index 0 and keeps the other cells in their
    order, one index lower; the length drops by one.  It needs a slot behind
    the cells: on a snake that fills its array the shifting loop reads
    [m_snake[capacity]]. *)
Theorem cut_removes_tail_in_order (canvas : Matrix.t) (s : Snake.t) :
  1 <= Snake.m_currentLength s <= Snake.capacity s ->
  (Snake.m_currentLength s < Snake.capacity s ->
   exists (tail : point) (s' : Snake.t),
     Snake.getTail s = Ok tail /\
     Snake.cut canvas s = Ok (Matrix.setPixel canvas tail false, s') /\
     Snake.getLength s' = Snake.getLength s - 1 /\
     Snake.cells s = tail :: Snake.cells s' /\
     forall i : Z, 0 <= i < Snake.getLength s' ->
                   rd (Snake.m_snake s') i = rd (Snake.m_snake s) (i + 1)) /\
  (Snake.m_currentLength s = Snake.capacity s -> Snake.cut canvas s = Fault).
Proof.
  intros Hlen. split.
  - intros Hroom.
    destruct (Snake_cut_spec canvas s) as (tail & s' & Ht & Ecut & Hl & Hc & Hcells); [lia|].
    exists tail, s'. split; [done|]. split; [done|]. split; [done|]. split; [done|].
    intros i Hi. unfold Snake.getLength in Hi. unfold Snake.capacity in *.
    assert (Hlook : forall j : nat, (j < Z.to_nat (Snake.m_currentLength s'))%nat ->
                    Snake.m_snake s' !! j = Snake.m_snake s !! S j).
    { intros j Hj.
      assert (Hj' : Snake.cells s !! S j = Snake.cells s' !! j) by (by rewrite Hcells).
      unfold Snake.cells in Hj'. rewrite !lookup_take_lt in Hj' by lia. done. }
    unfold rd.
    destruct (Z.leb_spec 0 i); [|lia]. destruct (Z.leb_spec 0 (i + 1)); [|lia].
    rewrite Hlook by lia. by replace (Z.to_nat (i + 1)) with (S (Z.to_nat i)) by lia.
  - intros Hfull. unfold Snake.capacity in *. unfold Snake.cut.
    destruct (lookup_lt_is_Some_2 (Snake.m_snake s) 0) as [tail Htail]; [lia|].
    pose proof (rd_nat _ 0%nat _ Htail) as Hrd. change (Z.of_nat 0) with 0 in Hrd.
    unfold Snake.getTail. rewrite Hrd. simpl.
    change 0 with (Z.of_nat 0).
    rewrite Snake_cut_loop_full by lia. done.
Qed.

Lemma cut_removes_tail_in_order_witness :
  (exists s', Snake.cut blank snake_at_edge = Ok (Matrix.setPixel blank (Point 5 0) false, s') /\
              Snake.cells s' = [Point 6 0; Point 7 0]) /\
  Snake.cut strip snake_full = Fault.
Proof.
  split.
  - destruct (cut_removes_tail_in_order blank snake_at_edge) as [Hcut _].
    + unfold Snake.capacity. simpl. lia.
    + destruct Hcut as (tail & s' & Ht & E & _ & Hcells & _).
      * unfold Snake.capacity. simpl. lia.
      * vm_compute in Ht. simplify_eq. exists s'. split; [exact E|].
        change (Snake.cells snake_at_edge) with [Point 5 0; Point 6 0; Point 7 0] in Hcells.
        by simplify_eq.
  - destruct (cut_removes_tail_in_order strip snake_full) as [_ Hfull].
    + unfold Snake.capacity. simpl. lia.
    + apply Hfull. reflexivity.
Defined.

(** ** A move: extend, then cut *)

Lemma Snake_getHead_last (s : Snake.t) (l : list point) (p : point) :
  Snake.cells s = l ++ [p] ->
  Snake.m_currentLength s <= Snake.capacity s ->
  Snake.getHead s = Ok p /\ Snake.m_currentLength s = Z.of_nat (length l) + 1.
Proof.
  intros Hcells Hcap. unfold Snake.capacity in Hcap.
  assert (Hlen : length (Snake.cells s) = S (length l)).
  { rewrite Hcells, length_app. simpl. lia. }
  unfold Snake.cells in Hlen. rewrite length_take in Hlen.
  assert (Hl : Snake.m_currentLength s = Z.of_nat (length l) + 1) by lia.
  split; [|done].
  assert (Hlast : Snake.cells s !! length l = Some p).
  { rewrite Hcells, lookup_app_r by lia. by rewrite Nat.sub_diag. }
  unfold Snake.cells in Hlast. rewrite lookup_take_lt in Hlast by lia.
  unfold Snake.getHead. rewrite Hl.
  replace (Z.of_nat (length l) + 1 - 1) with (Z.of_nat (length l)) by lia.
  by apply rd_nat.
Qed.

(** X4: [extend] followed by [cut] moves the snake by one cell: the length is
    the same, the old tail is gone, the other cells keep their order and the
    new head is the last cell. *)
Theorem extend_then_cut_shifts (canvas : Matrix.t) (s : Snake.t) (dir : Direction) :
  1 <= Snake.m_currentLength s ->
  Snake.m_currentLength s + 1 < Snake.capacity s ->
  Matrix.getColumnsCount canvas <> 0 ->
  Matrix.getRowsCount canvas <> 0 ->
  exists (c1 : Matrix.t) (s1 : Snake.t) (c2 : Matrix.t) (s2 : Snake.t) (head' tail : point),
    Snake.extend canvas s dir = Ok (c1, s1) /\
    Snake.getHead s1 = Ok head' /\
    Snake.cut c1 s1 = Ok (c2, s2) /\
    Snake.getTail s = Ok tail /\
    Snake.getLength s2 = Snake.getLength s /\
    Snake.getHead s2 = Ok head' /\
    Snake.cells s ++ [head'] = tail :: Snake.cells s2.
Proof.
  intros Hlen Hcap Hc Hr. destruct s as [len arr].
  unfold Snake.capacity in *. simpl in *.
  destruct (lookup_lt_is_Some_2 arr (Z.to_nat (len - 1))) as [head Hhead]; [lia|].
  assert (Hget : Snake.getHead {| Snake.m_currentLength := len; Snake.m_snake := arr |}
                 = Ok head).
  { unfold Snake.getHead. apply rd_Ok_iff. simpl. split; [lia | done]. }
  assert (Hroom : Snake.m_currentLength {| Snake.m_currentLength := len; Snake.m_snake := arr |}
                  < Snake.capacity {| Snake.m_currentLength := len; Snake.m_snake := arr |})
    by (unfold Snake.capacity; simpl; lia).
  pose proof (Snake_extend_spec canvas _ dir head Hroom Hc Hr Hget) as Eext.
  cbv zeta in Eext. simpl in Eext.
  match type of Eext with
  | _ = Ok (?c, ?t) => set (c1 := c) in *; set (s1 := t) in *
  end.
  match goal with
  | s1 := {| Snake.m_currentLength := _; Snake.m_snake := <[_ := ?h]> _ |} |- _ =>
      set (head' := h) in *
  end.
  assert (Hcells1 : Snake.cells s1
                    = Snake.cells {| Snake.m_currentLength := len; Snake.m_snake := arr |}
                      ++ [head']) by (apply Snake_cells_snoc; lia).
  assert (Hcap1 : Snake.capacity s1 = Z.of_nat (length arr))
    by (unfold Snake.capacity; simpl; by rewrite length_insert).
  destruct (Snake_getHead_last s1 _ head' Hcells1) as [Hget1 _]; [simpl; lia|].
  destruct (Snake_cut_spec c1 s1) as (tail & s2 & Ht & Ecut & Hl & Hc2 & Hcs);
    [simpl; lia|].
  assert (Htail : Snake.getTail {| Snake.m_currentLength := len; Snake.m_snake := arr |}
                  = Ok tail).
  { rewrite <- Ht. unfold Snake.getTail, rd. simpl.
    by rewrite list_lookup_insert_ne by lia. }
  exists c1, s1, (Matrix.setPixel c1 tail false), s2, head', tail.
  split; [done|]. split; [done|]. split; [done|]. split; [done|].
  split; [unfold Snake.getLength; simpl in *; lia|].
  split; [|by rewrite <- Hcells1].
  rewrite Hcells1 in Hcs.
  destruct (Snake.cells {| Snake.m_currentLength := len; Snake.m_snake := arr |})
    as [|c l] eqn:Hold.
  { unfold Snake.cells in Hold. simpl in Hold.
    apply (f_equal length) in Hold. rewrite length_take in Hold. simpl in Hold. lia. }
  simpl in Hcs. injection Hcs as _ Hcs.
  apply (Snake_getHead_last s2 l head'); [done|]. rewrite Hc2, Hcap1. simpl in Hl. lia.
Qed.

Lemma extend_then_cut_shifts_witness :
  exists (c1 : Matrix.t) (s1 : Snake.t) (c2 : Matrix.t) (s2 : Snake.t),
    Snake.extend blank snake_at_edge RIGHT = Ok (c1, s1) /\
    Snake.cut c1 s1 = Ok (c2, s2) /\
    Snake.cells s2 = [Point 6 0; Point 7 0; Point 0 0].
Proof.
  destruct (extend_then_cut_shifts blank snake_at_edge RIGHT)
    as (c1 & s1 & c2 & s2 & head' & tail & E1 & Hh & E2 & Ht & _ & _ & Hcells).
  - simpl. lia.
  - unfold Snake.capacity. simpl. lia.
  - simpl. lia.
  - simpl. lia.
  - exists c1, s1, c2, s2. split; [exact E1|]. split; [exact E2|].
    vm_compute in E1. simplify_eq. vm_compute in Hh. vm_compute in Ht. simplify_eq.
    change (Snake.cells snake_at_edge) with [Point 5 0; Point 6 0; Point 7 0] in Hcells.
    simpl in Hcells. by simplify_eq.
Defined.

(** ** Steps on the torus *)

Lemma wrap_back (v d n : Z) :
  0 <= v < n -> -1 <= d <= 1 ->
  Z.rem (Z.rem (v + d + n) n + - d + n) n = v.
Proof.
  intros Hv Hd.
  rewrite (Z.rem_mod_nonneg (v + d + n)) by lia.
  pose proof (Z.mod_pos_bound (v + d + n) n ltac:(lia)) as Hb.
  rewrite Z.rem_mod_nonneg by lia.
  rewrite <- Z.add_assoc, Z.add_mod_idemp_l by lia.
  replace (v + d + n + (- d + n)) with (v + 2 * n) by lia.
  rewrite Z.mod_add by lia. apply Z.mod_small. lia.
Qed.

(** X5: on the torus a step and the step in the opposite direction cancel:
    after [extend dir] and [extend (opposite dir)] from a head inside the
    grid, the head is the old head again, also across an edge. *)
Theorem extend_opposite_returns (canvas : Matrix.t) (s : Snake.t) (dir : Direction)
    (head : point) :
  Snake.m_currentLength s + 1 < Snake.capacity s ->
  Snake.getHead s = Ok head ->
  in_grid canvas head ->
  exists (c1 : Matrix.t) (s1 : Snake.t) (c2 : Matrix.t) (s2 : Snake.t),
    Snake.extend canvas s dir = Ok (c1, s1) /\
    Snake.extend c1 s1 (opposite dir) = Ok (c2, s2) /\
    Snake.getHead s2 = Ok head /\
    Snake.getLength s2 = Snake.getLength s + 2.
Proof.
  intros Hcap Hhead [Hx Hy].
  assert (Hlen : 0 <= Snake.m_currentLength s - 1) by (by apply rd_Ok_iff in Hhead as [? _]).
  unfold Snake.capacity in Hcap.
  assert (Hroom : Snake.m_currentLength s < Snake.capacity s)
    by (unfold Snake.capacity; lia).
  pose proof (Snake_extend_spec canvas s dir head Hroom ltac:(lia) ltac:(lia) Hhead) as E1.
  cbv zeta in E1.
  match type of E1 with
  | _ = Ok (?c, ?t) => set (c1 := c) in *; set (s1 := t) in *
  end.
  match goal with
  | s1 := {| Snake.m_currentLength := _; Snake.m_snake := <[_ := ?h]> _ |} |- _ =>
      set (head1 := h) in *
  end.
  assert (Hhead1 : Snake.getHead s1 = Ok head1).
  { unfold Snake.getHead. simpl.
    replace (Snake.m_currentLength s + 1 - 1)
      with (Z.of_nat (Z.to_nat (Snake.m_currentLength s))) by lia.
    apply rd_nat. apply list_lookup_insert_eq. lia. }
  assert (Hroom1 : Snake.m_currentLength s1 < Snake.capacity s1).
  { unfold Snake.capacity. simpl. rewrite length_insert. lia. }
  assert (Hc1 : Matrix.getColumnsCount c1 <> 0)
    by (unfold c1, Matrix.getColumnsCount in *; simpl; lia).
  assert (Hr1 : Matrix.getRowsCount c1 <> 0)
    by (unfold c1, Matrix.getRowsCount in *; simpl; lia).
  pose proof (Snake_extend_spec c1 s1 (opposite dir) head1 Hroom1 Hc1 Hr1 Hhead1) as E2.
  cbv zeta in E2.
  eexists c1, s1, _, _. split; [exact E1|]. split; [exact E2|]. split.
  - unfold Snake.getHead. simpl.
    replace (Snake.m_currentLength s + 1 + 1 - 1)
      with (Z.of_nat (Z.to_nat (Snake.m_currentLength s + 1))) by lia.
    rewrite (rd_nat _ _ head); [done|].
    replace (Z.to_nat (Snake.m_currentLength s + 1 + 1 - 1))
      with (Z.to_nat (Snake.m_currentLength s + 1)) by lia.
    rewrite list_lookup_insert_eq by (rewrite length_insert; lia).
    f_equal. destruct head as [hx hy]. unfold Matrix.getColumnsCount, Matrix.getRowsCount in *.
    simpl in *.
    assert (Hback : forall d, x (makeDirectionVector (opposite d)) = - x (makeDirectionVector d)
                           /\ y (makeDirectionVector (opposite d)) = - y (makeDirectionVector d))
      by (intros []; done).
    destruct (Hback dir) as [-> ->].
    assert (Hunit : -1 <= x (makeDirectionVector dir) <= 1 /\
                    -1 <= y (makeDirectionVector dir) <= 1) by (destruct dir; simpl; lia).
    f_equal; apply wrap_back; lia.
  - unfold Snake.getLength. simpl. lia.
Qed.

Lemma extend_opposite_returns_witness :
  exists (c1 : Matrix.t) (s1 : Snake.t) (c2 : Matrix.t) (s2 : Snake.t),
    Snake.extend blank snake_at_edge RIGHT = Ok (c1, s1) /\
    Snake.getHead s1 = Ok (Point 0 0) /\
    Snake.extend c1 s1 LEFT = Ok (c2, s2) /\
    Snake.getHead s2 = Ok (Point 7 0).
Proof.
  destruct (extend_opposite_returns blank snake_at_edge RIGHT (Point 7 0))
    as (c1 & s1 & c2 & s2 & E1 & E2 & Hh & _).
  - unfold Snake.capacity. simpl. lia.
  - reflexivity.
  - split; simpl; lia.
  - exists c1, s1, c2, s2. split; [exact E1|].
    split; [vm_compute in E1; by simplify_eq|]. split; [exact E2 | exact Hh].
Defined.

(** ** The constructor of Snake *)

(** The loop of the constructor writes the points [pos], [pos + dv], ... into
    the slots from [n] on. *)
Lemma Snake_new_loop_layout (todo : nat) :
  forall (canvas : Matrix.t) (arr : list point) (pos dv : point) (n : nat),
  (n + todo <= length arr)%nat ->
  exists (canvas' : Matrix.t) (arr' : list point),
    Snake.new_loop canvas arr pos dv (Z.of_nat n) todo = Ok (canvas', arr') /\
    length arr' = length arr /\
    forall j : nat,
      arr' !! j = if decide (n <= j < n + todo)%nat
                  then Some (step_from pos dv (Z.of_nat j - Z.of_nat n))
                  else arr !! j.
Proof.
  induction todo as [|todo IH]; intros canvas arr pos dv n Hlen; simpl.
  - exists canvas, arr. split; [done|]. split; [done|].
    intros j. by rewrite decide_False by lia.
  - rewrite wr_nat by lia. simpl.
    replace (Z.of_nat n + 1) with (Z.of_nat (S n)) by lia.
    destruct (IH (Matrix.setPixel canvas pos true) (<[n := pos]> arr) (point_add pos dv) dv (S n))
      as (canvas' & arr' & E & Hl & Hlook).
    { rewrite length_insert. lia. }
    exists canvas', arr'. split; [done|]. rewrite length_insert in Hl. split; [done|].
    intros j. rewrite Hlook. destruct (decide (j = n)) as [->|Hjn].
    + rewrite decide_False by lia. rewrite decide_True by lia.
      rewrite list_lookup_insert_eq by lia. f_equal.
      unfold step_from. destruct pos. simpl. f_equal; lia.
    + destruct (decide (S n <= j < S n + todo)%nat).
      * rewrite decide_True by lia. f_equal.
        replace (point_add pos dv) with (step_from pos dv 1)
          by (unfold step_from, point_add; destruct pos, dv; simpl; f_equal; lia).
        unfold step_from. simpl. f_equal; lia.
      * rewrite decide_False by lia. by rewrite list_lookup_insert_ne by lia.
Qed.

(** The loop of the constructor writes behind the array when it has more
    rounds than the array has slots from [n] on. *)
Lemma Snake_new_loop_overflow (todo : nat) :
  forall (canvas : Matrix.t) (arr : list point) (pos dv : point) (n : nat),
  (n <= length arr < n + todo)%nat ->
  Snake.new_loop canvas arr pos dv (Z.of_nat n) todo = Fault.
Proof.
  induction todo as [|todo IH]; intros canvas arr pos dv n Hlen; [lia|]. simpl.
  destruct (decide (n = length arr)) as [->|Hne].
  - unfold wr. destruct (Z.ltb_spec (Z.of_nat (length arr)) (Z.of_nat (length arr))); [lia|].
    by rewrite andb_false_r.
  - rewrite wr_nat by lia. simpl.
    replace (Z.of_nat n + 1) with (Z.of_nat (S n)) by lia.
    apply IH. rewrite length_insert. lia.
Qed.

(** The constructor on an array that holds the initial snake. *)
Lemma Snake_new_spec (canvas : Matrix.t) (initLength maxLength : Z) (start : point)
    (dir : Direction) :
  0 <= maxLength + 1 ->
  initLength <= maxLength + 1 ->
  exists (canvas' : Matrix.t) (s : Snake.t),
    Snake.new canvas initLength maxLength start dir = Ok (canvas', s) /\
    Snake.getLength s = initLength /\
    Snake.capacity s = maxLength + 1 /\
    Snake.cells s = step_from start (makeDirectionVector dir) <$> seqZ 0 initLength.
Proof.
  intros Hmax Hfit. unfold Snake.new.
  destruct (Snake_new_loop_layout (Z.to_nat initLength) canvas
              (replicate (Z.to_nat (maxLength + 1)) junk) start (makeDirectionVector dir) 0)
    as (canvas' & arr' & E & Hl & Hlook).
  { rewrite length_replicate. lia. }
  change (Z.of_nat 0) with 0 in E. rewrite E. simpl.
  eexists _, _. split; [done|]. split; [done|].
  split; [unfold Snake.capacity; simpl; rewrite Hl, length_replicate; lia|].
  unfold Snake.cells. simpl. apply list_eq. intros j.
  rewrite lookup_take, Hlook, list_lookup_fmap.
  destruct (decide (j < Z.to_nat initLength)%nat).
  - rewrite decide_True by lia. rewrite lookup_seqZ_lt by lia. simpl.
    f_equal. f_equal. lia.
  - by rewrite lookup_seqZ_ge by lia.
Qed.

(** X6: the constructor lays the snake out from [start] in steps of the
    direction vector, without wrapping: cell [i] is [start + i * d].  An
    initial length above [maxLength + 1] makes it write behind its array. *)
Theorem Snake_new_lays_out (canvas : Matrix.t) (initLength maxLength : Z) (start : point)
    (dir : Direction) :
  0 <= maxLength + 1 ->
  (initLength <= maxLength + 1 ->
   exists (canvas' : Matrix.t) (s : Snake.t),
     Snake.new canvas initLength maxLength start dir = Ok (canvas', s) /\
     Snake.getLength s = initLength /\
     Snake.capacity s = maxLength + 1 /\
     forall i : Z, 0 <= i < initLength ->
       rd (Snake.m_snake s) i
       = Ok {| x := x start + i * x (makeDirectionVector dir);
               y := y start + i * y (makeDirectionVector dir) |}) /\
  (maxLength + 1 < initLength ->
   Snake.new canvas initLength maxLength start dir = Fault).
Proof.
  intros Hmax. split.
  - intros Hfit.
    destruct (Snake_new_spec canvas initLength maxLength start dir Hmax Hfit)
      as (canvas' & s & E & Hlen & Hcap & Hcells).
    exists canvas', s. split; [done|]. split; [done|]. split; [done|].
    intros i Hi. apply rd_Ok_iff. split; [lia|].
    assert (Hi' : Snake.cells s !! Z.to_nat i
                  = Some (step_from start (makeDirectionVector dir) i)).
    { rewrite Hcells, list_lookup_fmap, lookup_seqZ_lt by lia. simpl.
      f_equal. f_equal. lia. }
    unfold Snake.cells in Hi'. unfold Snake.getLength in Hlen.
    rewrite lookup_take_lt in Hi' by lia. done.
  - intros Hover. unfold Snake.new. change 0 with (Z.of_nat 0).
    rewrite Snake_new_loop_overflow; [done|]. rewrite length_replicate. lia.
Qed.

Lemma Snake_new_lays_out_witness :
  (exists (canvas' : Matrix.t) (s : Snake.t),
     Snake.new blank 3 12 (Point 7 0) DOWN = Ok (canvas', s) /\
     Snake.cells s = [Point 7 0; Point 7 1; Point 7 2]) /\
  Snake.new blank 3 1 (Point 7 0) DOWN = Fault.
Proof.
  split.
  - destruct (Snake_new_lays_out blank 3 12 (Point 7 0) DOWN) as [Hfit _]; [lia|].
    destruct Hfit as (canvas' & s & E & Hlen & Hcap & Hcells); [lia|].
    exists canvas', s. split; [exact E|].
    unfold Snake.cells, Snake.getLength, Snake.capacity in *. rewrite Hlen.
    destruct s as [len arr]. simpl in *.
    pose proof (Hcells 0 ltac:(lia)) as H0. pose proof (Hcells 1 ltac:(lia)) as H1.
    pose proof (Hcells 2 ltac:(lia)) as H2.
    apply rd_Ok_iff in H0 as [_ H0]. apply rd_Ok_iff in H1 as [_ H1].
    apply rd_Ok_iff in H2 as [_ H2].
    destruct arr as [|c0 [|c1 [|c2 arr]]]; simpl in *; simplify_eq. reflexivity.
  - destruct (Snake_new_lays_out blank 3 1 (Point 7 0) DOWN) as [_ Hover]; [lia|].
    apply Hover. lia.
Defined.

(** ** The game after playLose() and playWin() *)

(** What [initGame()] builds. *)
Lemma initGame_layout (cfg : Config) (dir : Direction) (m : Matrix.t) (s : Snake.t)
    (f : Food.t) :
  0 <= MAX_SNAKE_LENGTH cfg + 1 ->
  INIT_SNAKE_LENGTH cfg <= MAX_SNAKE_LENGTH cfg + 1 ->
  initGame cfg dir = Ok (m, s, f) ->
  Snake.cells s = step_from {| x := COLUMNS cfg - 1; y := 0 |} (makeDirectionVector dir)
                  <$> seqZ 0 (INIT_SNAKE_LENGTH cfg) /\
  Snake.getLength s = INIT_SNAKE_LENGTH cfg /\
  Snake.capacity s = MAX_SNAKE_LENGTH cfg + 1 /\
  Matrix.getRowsCount m = ROWS cfg /\
  Matrix.getColumnsCount m = COLUMNS cfg /\
  f = Food.new (FOOD_POINTS cfg).
Proof.
  intros Hmax Hfit E.
  destruct (initGame_Ok cfg dir Hfit) as (m0 & s0 & E0 & _ & _ & Hr & Hc).
  rewrite E in E0. simplify_eq.
  destruct (Snake_new_spec (Matrix.new (ROWS cfg) (COLUMNS cfg)) (INIT_SNAKE_LENGTH cfg)
              (MAX_SNAKE_LENGTH cfg) {| x := COLUMNS cfg - 1; y := 0 |} dir Hmax Hfit)
    as (canvas' & s & Enew & Hlen & Hcap & Hcells).
  unfold initGame in E. rewrite Enew in E. simpl in E. by simplify_eq.
Qed.

(** A call of [finish] that ends the game keeps [direct] and returns what
    [initGame()] builds for it. *)
Lemma finish_new_game (cfg : Config) (g g' : Game) (o : Outcome) :
  finish cfg g = Ok (g', o) ->
  o <> Running ->
  direct g' = direct g /\ initGame cfg (direct g) = Ok (matrix g', snake g', food g').
Proof.
  unfold finish. intros H Ho. ok_inv H as collision E1.
  destruct collision.
  - ok_inv H as g0 E2. simplify_eq.
    unfold playLose in E2. ok_inv E2 as [[m s] f] E3. by simplify_eq.
  - destruct (Snake.getLength (snake g) =? MAX_SNAKE_LENGTH cfg).
    + ok_inv H as g0 E2. simplify_eq.
      unfold playWin in E2. ok_inv E2 as [[m s] f] E3. by simplify_eq.
    + ok_inv H as m E2. by simplify_eq.
Qed.

(** The new snake lies inside the grid exactly for the headings LEFT and
    DOWN. *)
Lemma new_snake_in_grid (cfg : Config) (dir : Direction) (m : Matrix.t) :
  2 <= INIT_SNAKE_LENGTH cfg ->
  INIT_SNAKE_LENGTH cfg <= ROWS cfg ->
  INIT_SNAKE_LENGTH cfg <= COLUMNS cfg ->
  Matrix.getRowsCount m = ROWS cfg ->
  Matrix.getColumnsCount m = COLUMNS cfg ->
  Forall (in_grid m)
         (step_from {| x := COLUMNS cfg - 1; y := 0 |} (makeDirectionVector dir)
          <$> seqZ 0 (INIT_SNAKE_LENGTH cfg))
  <-> dir = LEFT \/ dir = DOWN.
Proof.
  intros Hinit Hrows Hcols Hr Hc.
  rewrite Forall_fmap, Forall_seqZ. unfold in_grid, compose, step_from. rewrite Hr, Hc.
  split.
  - intros Hall. specialize (Hall 1 ltac:(lia)). destruct dir; simpl in Hall; auto; lia.
  - intros [-> | ->] i Hi; simpl; lia.
Qed.

(** X7: a call of [loop()] that ends in [playLose()] or [playWin()] lays the
    new snake out from (COLUMNS - 1, 0) along the heading of that call,
    without wrapping; the new snake lies inside the grid exactly when that
    heading is LEFT or DOWN.  For UP and RIGHT its second cell is outside. *)
Theorem new_game_in_grid_iff_left_or_down (cfg : Config) (fuel : nat) (rnd : nat -> point)
    (joystick : Z * Z) (g g' : Game) (o : Outcome) :
  2 <= INIT_SNAKE_LENGTH cfg <= MAX_SNAKE_LENGTH cfg + 1 ->
  INIT_SNAKE_LENGTH cfg <= ROWS cfg ->
  INIT_SNAKE_LENGTH cfg <= COLUMNS cfg ->
  loop cfg fuel rnd joystick g = Ok (g', o) ->
  o <> Running ->
  direct g' = steer (direct g) (readDirection cfg joystick (direct g)) /\
  Snake.cells (snake g')
  = step_from {| x := COLUMNS cfg - 1; y := 0 |} (makeDirectionVector (direct g'))
    <$> seqZ 0 (INIT_SNAKE_LENGTH cfg) /\
  (Forall (in_grid (matrix g')) (Snake.cells (snake g'))
   <-> direct g' = LEFT \/ direct g' = DOWN).
Proof.
  intros Hinit Hrows Hcols E Ho.
  apply loop_inv in E as (g1 & eaten & g2 & Hadv & Href & Hfin).
  apply advance_inv in Hadv as (m & s & head & f & _ & _ & _ & _ & Hd1 & _).
  apply refill_snake in Href as [_ Hd2].
  destruct (finish_new_game cfg g2 g' o Hfin Ho) as [Hd' Hnew].
  rewrite <- Hd' in Hnew.
  destruct (initGame_layout cfg (direct g') _ _ _ ltac:(lia) ltac:(lia) Hnew)
    as (Hcells & _ & _ & Hr & Hc & _).
  split; [congruence|]. split; [done|].
  rewrite Hcells. apply new_snake_in_grid; (done || lia).
Qed.

Lemma game_before_bite_reached :
  (g0 ← setup sketch 5 rnd_feast; run sketch 5 rnd_feast (take 6 joysticks_feast) g0)
  = Ok (game_before_bite, replicate 6 Running).
Proof. vm_compute. reflexivity. Qed.

Lemma new_game_in_grid_iff_left_or_down_witness :
  exists g' : Game,
    loop sketch 0 rnd_feast (512, 1023) game_before_bite = Ok (g', Lost) /\
    direct g' = UP /\
    Snake.cells (snake g') = [Point 7 0; Point 7 (-1)] /\
    ~ Forall (in_grid (matrix g')) (Snake.cells (snake g')).
Proof.
  destruct (loop sketch 0 rnd_feast (512, 1023) game_before_bite) as [[g' o]| |] eqn:E;
    [|by vm_compute in E..].
  assert (Ho : o = Lost) by (vm_compute in E; by simplify_eq).
  subst o.
  destruct (new_game_in_grid_iff_left_or_down sketch 0 rnd_feast (512, 1023)
              game_before_bite g' Lost) as (Hd & Hcells & Hiff).
  - simpl. lia.
  - simpl. lia.
  - simpl. lia.
  - exact E.
  - done.
  - change (steer (direct game_before_bite)
                  (readDirection sketch (512, 1023) (direct game_before_bite))) with UP in Hd.
    exists g'. split; [done|]. split; [done|].
    rewrite Hd in Hcells, Hiff. split; [exact Hcells|].
    intros Hall. apply Hiff in Hall. by destruct Hall.
Defined.

(** ** No cell is occupied twice *)

Lemma step_from_inj (start : point) (dir : Direction) (i j : Z) :
  step_from start (makeDirectionVector dir) i = step_from start (makeDirectionVector dir) j ->
  i = j.
Proof.
  unfold step_from. intros H. injection H as Hx Hy. destruct dir; simpl in *; lia.
Qed.

Lemma initGame_exclusive (cfg : Config) (dir : Direction) (level : bool) (n : nat)
    (m : Matrix.t) (s : Snake.t) (f : Food.t) :
  sane cfg ->
  initGame cfg dir = Ok (m, s, f) ->
  exclusive {| matrix := m; snake := s; food := f; direct := dir;
               buzzer := level; drawn := n |}.
Proof.
  intros (Hinit & _) E.
  destruct (initGame_layout cfg dir m s f ltac:(lia) ltac:(lia) E)
    as (Hcells & _ & _ & _ & _ & ->).
  unfold exclusive. simpl. rewrite Hcells.
  destruct (Food_new_shape (FOOD_POINTS cfg)) as (_ & _ & ->).
  split; [|split; [apply NoDup_nil_2 | intros p Hp; by apply elem_of_nil in Hp]].
  apply NoDup_fmap_2_strong; [|apply NoDup_seqZ].
  intros i j _ _. apply step_from_inj.
Qed.

(** What [checkSelfCollision] answers, in terms of the cells. *)
Lemma Snake_checkSelfCollision_cells (s : Snake.t) (body : list point) (h : point) :
  Snake.m_currentLength s <= Snake.capacity s ->
  Snake.cells s = body ++ [h] ->
  Snake.checkSelfCollision s = Ok (bool_decide (h ∈ body)).
Proof.
  intros Hcap Hcells.
  destruct (Snake_getHead_last s body h Hcells Hcap) as [Hhead Hlen].
  unfold Snake.capacity in Hcap.
  unfold Snake.checkSelfCollision. rewrite Hhead. simpl.
  change 0 with (Z.of_nat 0).
  rewrite Snake_checkSelfCollision_loop_spec by (simpl; lia).
  rewrite drop_0. f_equal.
  unfold Snake.cells in Hcells.
  assert (Htake : take (length body) (take (Z.to_nat (Snake.m_currentLength s)) (Snake.m_snake s))
                  = body) by (rewrite Hcells; apply take_app_length).
  rewrite take_take, Nat.min_l in Htake by lia.
  replace (Z.to_nat (Snake.m_currentLength s - 1)) with (length body) by lia.
  by rewrite Htake.
Qed.

(** The food [refill] adds. *)
Lemma refill_cells (cfg : Config) (fuel : nat) (rnd : nat -> point) (g g' : Game) :
  0 <= Snake.getLength (snake g) <= Snake.capacity (snake g) ->
  0 <= Food.getCount (food g) <= Food.capacity (food g) ->
  refill cfg fuel rnd g = Ok g' ->
  exists added : list point,
    Food.cells (food g') = Food.cells (food g) ++ added /\
    NoDup added /\
    forall p, p ∈ added -> unoccupied (snake g) (food g) p.
Proof.
  intros Hs Hf. unfold refill. destruct (refill_request cfg (food g)) as [request|]; intros H.
  - ok_inv H as [[m f] n] E1. simplify_eq. simpl.
    destruct (Food_placeFood_returns _ _ _ Hs _ _ _ _ _ _ _ Hf E1)
      as (added & Hcells & _ & _ & _ & _ & Hnd & Hadded).
    exists added. split; [done|]. split; [done|]. intros p Hp. by apply Hadded.
  - simplify_eq. exists []. rewrite app_nil_r. split; [done|].
    split; [apply NoDup_nil_2 | intros p Hp; by apply elem_of_nil in Hp].
Qed.

Lemma exclusive_add_food (s : Snake.t) (cells added : list point) (f : Food.t) :
  NoDup cells ->
  (forall p, p ∈ cells -> p ∉ Snake.cells s) ->
  NoDup added ->
  (forall p, p ∈ added -> (p ∉ Snake.cells s) /\ (p ∉ cells)) ->
  NoDup (cells ++ added) /\ forall p, p ∈ cells ++ added -> p ∉ Snake.cells s.
Proof.
  intros Hnd Hoff Hnda Hadded. split.
  - apply NoDup_app. split; [done|]. split; [|done].
    intros p Hp Hpa. by destruct (Hadded p Hpa).
  - intros p Hp. apply elem_of_app in Hp as [Hp|Hp]; [by apply Hoff|].
    by destruct (Hadded p Hp).
Qed.

(** From a new game on, between two calls of [loop()] no cell is occupied
    twice. *)
Lemma boundary_exclusive (cfg : Config) (g : Game) :
  sane cfg -> boundary cfg g -> exclusive g.
Proof.
  intros Hsane Hb. induction Hb as [dir level n m s f E | fuel rnd g E
                                   | fuel rnd joystick g g' o Hb IH E].
  - by apply (initGame_exclusive cfg).
  - unfold setup in E. ok_inv E as [[m s] f] E1. ok_inv E as [[m' f'] n] E2.
    simplify_eq.
    destruct (initGame_exclusive cfg DOWN false 0%nat m s f Hsane E1) as (Hsn & Hfn & Hdis).
    destruct (initGame_well_formed cfg DOWN false 0%nat m s f Hsane E1)
      as [(Hlen & Hcap & Hcount & Hfcap & _) _].
    simpl in *.
    assert (Hs : 0 <= Snake.m_currentLength s <= Snake.capacity s)
      by (unfold Snake.getLength in *; lia).
    assert (Hf : 0 <= Food.m_foodCount f <= Food.capacity f)
      by (unfold Food.getCount in *; lia).
    destruct (Food_placeFood_returns _ _ s Hs _ _ _ _ _ _ _ Hf E2)
      as (added & Hcells & _ & _ & _ & _ & Hnda & Hadded).
    unfold exclusive. simpl. rewrite Hcells. split; [done|].
    apply exclusive_add_food; try done. intros p Hp. by apply Hadded.
  - pose proof (boundary_well_formed cfg g Hsane Hb) as (Hlen & Hcap & Hcount & Hfcap & Hr & Hc).
    destruct IH as (Hsn & Hfn & Hdis).
    pose proof Hsane as (Hinit & Hrows & Hcols & Hfood).
    apply loop_inv in E as (g1 & eaten & g2 & Hadv & Href & Hfin).
    destruct (advance_spec cfg joystick g)
      as (m1 & s1 & head' & g1' & eaten' & _ & _ & Hcells1 & _ & Hadv' & Hiff & Hhead1 & _
          & Hcap1 & Hfcap1 & Hcount1 & Hyes & Hno); try lia.
    rewrite Hadv in Hadv'. simplify_eq.
    pose proof (advance_length _ _ _ _ _ Hadv) as Hlen1.
    assert (Hs1 : 0 <= Snake.getLength (snake g1') <= Snake.capacity (snake g1'))
      by (destruct eaten'; lia).
    (* the snake after the step: a body without repetition, then the new head *)
    assert (Hbody : exists body, Snake.cells (snake g1') = body ++ [head'] /\ NoDup body /\
                                 forall p, p ∈ body -> p ∈ Snake.cells (snake g)).
    { destruct eaten'.
      - destruct Hyes as (-> & _); [done|]. by exists (Snake.cells (snake g)).
      - destruct Hno as (_ & _ & tail & _ & Hcs); [done|]. rewrite Hcells1 in Hcs.
        destruct (Snake.cells (snake g)) as [|c l] eqn:Hold.
        + unfold Snake.cells in Hold. apply (f_equal length) in Hold.
          rewrite length_take in Hold. unfold Snake.getLength, Snake.capacity in *.
          simpl in Hold. lia.
        + simpl in Hcs. injection Hcs as _ Hcs. exists l. split; [done|].
          apply NoDup_cons in Hsn as [_ Hsn]. split; [done|].
          intros p Hp. by apply list_elem_of_further. }
    destruct Hbody as (body & Hcs1 & Hbnd & Hbsub).
    (* the food after the step *)
    assert (Hfood1 : NoDup (Food.cells (food g1')) /\
                     forall p, p ∈ Food.cells (food g1') -> p ∉ Snake.cells (snake g1')).
    { destruct eaten'.
      - destruct Hyes as (_ & _ & Hperm); [done|].
        rewrite Hperm in Hfn. apply NoDup_cons in Hfn as [Hnot Hfn1]. split; [done|].
        intros p Hp. rewrite Hcs1, elem_of_app, list_elem_of_singleton.
        intros [Hpb | ->]; [|done].
        apply (Hdis p); [rewrite Hperm; by apply list_elem_of_further | by apply Hbsub].
      - destruct Hno as (Hf1 & _); [done|]. rewrite Hf1. split; [done|].
        intros p Hp. rewrite Hcs1, elem_of_app, list_elem_of_singleton.
        intros [Hpb | ->]; [by apply (Hdis p), Hbsub|].
        assert (false = true) by (by apply Hiff). done. }
    destruct Hfood1 as [Hfn1 Hdis1].
    destruct (refill_cells cfg fuel rnd g1' g2) as (added & Hf2 & Hnda & Hadded);
      [done | lia | done |].
    apply refill_snake in Href as [Hs2 _].
    destruct (exclusive_add_food (snake g1') (Food.cells (food g1')) added (food g1'))
      as [Hfn2 Hdis2]; try done.
    rewrite <- Hf2 in Hfn2, Hdis2.
    pose proof Hfin as Hfin'.
    apply finish_inv in Hfin as (collision & Hcoll & Hfin).
    destruct o.
    + destruct Hfin as (-> & _ & Hs' & Hf' & _).
      rewrite Hs2 in Hcoll.
      rewrite (Snake_checkSelfCollision_cells _ body head') in Hcoll
        by (done || (unfold Snake.getLength in *; lia)).
      injection Hcoll as Hcoll. apply bool_decide_eq_false in Hcoll.
      unfold exclusive. rewrite Hs', Hf', Hs2. split; [|done].
      rewrite Hcs1. apply NoDup_app. split; [done|]. split; [|apply NoDup_singleton].
      intros p Hp Hph. apply list_elem_of_singleton in Hph as ->. done.
    + destruct (finish_new_game cfg g2 g' Lost Hfin' ltac:(done)) as [_ Hnew].
      destruct g' as [m' s' f' dir' level' n']. simpl in Hnew.
      by apply (initGame_exclusive cfg _ level' n') in Hnew.
    + destruct (finish_new_game cfg g2 g' Won Hfin' ltac:(done)) as [_ Hnew].
      destruct g' as [m' s' f' dir' level' n']. simpl in Hnew.
      by apply (initGame_exclusive cfg _ level' n') in Hnew.
Qed.

Lemma Snake_cells_split (s : Snake.t) :
  1 <= Snake.m_currentLength s <= Snake.capacity s ->
  exists (body : list point) (h : point), Snake.cells s = body ++ [h].
Proof.
  intros Hlen. unfold Snake.capacity in Hlen.
  destruct (lookup_lt_is_Some_2 (Snake.m_snake s) (Z.to_nat (Snake.m_currentLength s - 1)))
    as [h Hh]; [lia|].
  exists (take (Z.to_nat (Snake.m_currentLength s - 1)) (Snake.m_snake s)), h.
  unfold Snake.cells.
  replace (Z.to_nat (Snake.m_currentLength s)) with (S (Z.to_nat (Snake.m_currentLength s - 1)))
    by lia.
  by apply take_S_r.
Qed.

(** X8: from a new game on, between two calls of [loop()] the cells of the
    snake are pairwise distinct: a snake that ran into itself never survives
    the call, and [checkSelfCollision] answers false on what is left. *)
Theorem snake_never_overlaps_itself (cfg : Config) (g : Game) :
  sane cfg ->
  boundary cfg g ->
  NoDup (Snake.cells (snake g)) /\
  Snake.checkSelfCollision (snake g) = Ok false.
Proof.
  intros Hsane Hb.
  destruct (boundary_exclusive cfg g Hsane Hb) as (Hnd & _).
  destruct (boundary_well_formed cfg g Hsane Hb) as (Hlen & Hcap & _).
  split; [done|].
  unfold Snake.getLength in Hlen.
  destruct (Snake_cells_split (snake g)) as (body & h & Hcells); [lia|].
  rewrite (Snake_checkSelfCollision_cells _ body h) by (done || lia).
  f_equal. apply bool_decide_eq_false.
  rewrite Hcells in Hnd. apply NoDup_app in Hnd as (_ & Hnot & _).
  intros Hin. apply (Hnot h Hin). apply list_elem_of_here.
Qed.

Lemma snake_never_overlaps_itself_witness :
  NoDup (Snake.cells (snake game_before_meal)) /\
  Snake.checkSelfCollision (snake game_before_meal) = Ok false.
Proof.
  exact (snake_never_overlaps_itself sketch game_before_meal sketch_sane
           game_before_meal_boundary).
Defined.

(** X9: from a new game on, between two calls of [loop()] the food cells are
    pairwise distinct and none of them is a cell of the snake, so no food is
    hidden under the snake and [Snake::isOccupied] answers false on every
    food cell. *)
Theorem food_never_on_snake (cfg : Config) (g : Game) :
  sane cfg ->
  boundary cfg g ->
  NoDup (Food.cells (food g)) /\
  (forall p : point, p ∈ Food.cells (food g) -> p ∉ Snake.cells (snake g)) /\
  (forall p : point, p ∈ Food.cells (food g) -> Snake.isOccupied (snake g) p = Ok false).
Proof.
  intros Hsane Hb.
  destruct (boundary_exclusive cfg g Hsane Hb) as (_ & Hnd & Hdis).
  destruct (boundary_well_formed cfg g Hsane Hb) as (Hlen & Hcap & _).
  split; [done|]. split; [done|].
  intros p Hp. unfold Snake.getLength in Hlen.
  rewrite Snake_isOccupied_spec by lia.
  f_equal. apply bool_decide_eq_false. by apply Hdis.
Qed.

Lemma food_never_on_snake_witness :
  NoDup (Food.cells (food game_before_meal)) /\
  Snake.isOccupied (snake game_before_meal) (Point 7 3) = Ok false.
Proof.
  destruct (food_never_on_snake sketch game_before_meal sketch_sane game_before_meal_boundary)
    as (Hnd & _ & Hocc).
  split; [exact Hnd|]. apply Hocc. apply list_elem_of_here.
Defined.


Lemma loop_returns_witness :
  exists (g' : Game) (o : Outcome),
    loop sketch 1 rnd_demo (512, 512) game_before_meal = Ok (g', o).
Proof.
  destruct (advance sketch (512, 512) game_before_meal) as [[g1 eaten]| |] eqn:E;
    [|by vm_compute in E..].
  apply (loop_returns sketch rnd_demo (512, 512) game_before_meal g1 eaten 0 sketch_sane
           game_before_meal_boundary E).
  vm_compute in E. simplify_eq. simpl. split; [lia|].
  apply (bool_decide_unpack _). by vm_compute.
Defined.

(** ** The blinking head *)






Lemma game_fed_reached :
  ('(g1, _) ← advance sketch (512, 512) game_before_meal; refill sketch 1 rnd_demo g1)
  = Ok game_fed.
Proof. vm_compute. reflexivity. Qed.

(** ** curtainAnimation() *)







(** ** readDirection() *)

(** X14: inside the dead zone, a disc around the centre reading (512, 512)
    whose radius is the threshold, [readDirection] answers the default.
    Outside of it the answer does not depend on the default, the reading
    mirrored at the centre gives the opposite direction, and the horizontal
    axis wins only when its deflection is strictly larger. *)
Theorem readDirection_dead_zone_and_mirror (cfg : Config) (ax ay : Z) (dflt dflt' : Direction) :
  let deflection := (ax - 512) * (ax - 512) + (ay - 512) * (ay - 512) in
  let threshold := JOYSTICK_THRESHOLD cfg * JOYSTICK_THRESHOLD cfg in
  (deflection <= threshold -> readDirection cfg (ax, ay) dflt = dflt) /\
  (threshold < deflection ->
   readDirection cfg (ax, ay) dflt = readDirection cfg (ax, ay) dflt' /\
   readDirection cfg (1024 - ax, 1024 - ay) dflt'
   = opposite (readDirection cfg (ax, ay) dflt) /\
   ((readDirection cfg (ax, ay) dflt = LEFT \/ readDirection cfg (ax, ay) dflt = RIGHT)
    <-> Z.abs (ay - 512) < Z.abs (ax - 512))).
Proof.
  intros deflection threshold. subst deflection threshold.
  unfold readDirection. simpl.
  replace (1024 - ax - 512) with (- (ax - 512)) by lia.
  replace (1024 - ay - 512) with (- (ay - 512)) by lia.
  rewrite !Z.mul_opp_opp, !Z.abs_opp.
  set (xPin := ax - 512). set (yPin := ay - 512).
  assert (Hsq : 0 <= JOYSTICK_THRESHOLD cfg * JOYSTICK_THRESHOLD cfg) by nia.
  split.
  - intros Hin.
    destruct (Z.gtb_spec (xPin * xPin + yPin * yPin)
                (JOYSTICK_THRESHOLD cfg * JOYSTICK_THRESHOLD cfg)); [lia | done].
  - intros Hout.
    destruct (Z.gtb_spec (xPin * xPin + yPin * yPin)
                (JOYSTICK_THRESHOLD cfg * JOYSTICK_THRESHOLD cfg)); [|lia].
    split; [done|].
    destruct (Z.gtb_spec (Z.abs xPin) (Z.abs yPin)) as [Hx|Hy].
    + split.
      * destruct (Z.gtb_spec xPin 0), (Z.gtb_spec (- xPin) 0); (done || lia).
      * destruct (Z.gtb_spec xPin 0); split; (lia || auto).
    + assert (Hy0 : yPin <> 0) by nia.
      split.
      * destruct (Z.gtb_spec yPin 0), (Z.gtb_spec (- yPin) 0); (done || lia).
      * destruct (Z.gtb_spec yPin 0); split; try lia; intros [?|?]; done.
Qed.

Lemma readDirection_dead_zone_and_mirror_witness :
  readDirection sketch (530, 500) UP = UP /\
  readDirection sketch (1023, 512) UP = LEFT /\
  readDirection sketch (1, 512) DOWN = RIGHT /\
  readDirection sketch (700, 700) LEFT = UP.
Proof.
  destruct (readDirection_dead_zone_and_mirror sketch 530 500 UP UP) as [Hin _].
  destruct (readDirection_dead_zone_and_mirror sketch 1023 512 UP DOWN) as [_ Hout].
  destruct Hout as (_ & Hmirror & _); [simpl; lia|].
  split; [apply Hin; simpl; lia|]. split; [reflexivity|].
  split; [exact Hmirror | reflexivity].
Defined.

(** ** What initGame() and placeFood draw *)









(** ** Runs of loop() *)

Lemma run_boundary (cfg : Config) (fuel : nat) (rnd : nat -> point) (joysticks : list (Z * Z)) :
  forall (g g' : Game) (os : list Outcome),
  boundary cfg g ->
  run cfg fuel rnd joysticks g = Ok (g', os) ->
  boundary cfg g' /\ length os = length joysticks.
Proof.
  induction joysticks as [|joystick joysticks IH]; intros g g' os Hb H; simpl in H.
  - by simplify_eq.
  - ok_inv H as [g1 o] E1. ok_inv H as [g2 os'] E2. simplify_eq.
    destruct (IH g1 g' os') as [Hb' Hlen]; [by eapply boundary_loop | done |].
    split; [done | simpl; by rewrite Hlen].
Qed.

Lemma game_before_bite_boundary : boundary sketch game_before_bite.
Proof.
  pose proof game_before_bite_reached as H.
  destruct (setup sketch 5 rnd_feast) as [g0| |] eqn:E0; simpl in H; [|done..].
  apply (run_boundary sketch 5 rnd_feast (take 6 joysticks_feast) g0 _ _) in H as [Hb _];
    [done | by eapply boundary_setup].
Defined.

(** ** How a call of loop() ends *)

(** X17: from a new game on, a call of [loop()] ends in [playLose()] exactly
    when the new head is a cell of the snake other than its tail, and in
    [playWin()] exactly when the new head is a food cell and the snake had
    [MAX_SNAKE_LENGTH - 1] cells.  So a call in which the snake eats never
    ends in [playLose()], and stepping on the cell the tail leaves is safe. *)
Theorem outcome_of_a_call (cfg : Config) (fuel : nat) (rnd : nat -> point)
    (joystick : Z * Z) (g g' : Game) (o : Outcome) (m1 : Matrix.t) (s1 : Snake.t)
    (head' : point) :
  sane cfg ->
  boundary cfg g ->
  Snake.extend (matrix g) (snake g)
               (steer (direct g) (readDirection cfg joystick (direct g))) = Ok (m1, s1) ->
  Snake.getHead s1 = Ok head' ->
  loop cfg fuel rnd joystick g = Ok (g', o) ->
  (o = Lost <-> head' ∈ drop 1 (Snake.cells (snake g))) /\
  (o = Won <-> head' ∈ Food.cells (food g) /\
               Snake.getLength (snake g) = MAX_SNAKE_LENGTH cfg - 1) /\
  (head' ∈ Food.cells (food g) -> head' ∉ Snake.cells (snake g)).
Proof.
  intros Hsane Hb Hext Hhead E.
  destruct (boundary_well_formed cfg g Hsane Hb) as (Hlen & Hcap & Hcount & Hfcap & Hr & Hc).
  destruct (boundary_exclusive cfg g Hsane Hb) as (Hsn & _ & Hdis).
  pose proof Hsane as (Hinit & Hrows & Hcols & Hfood).
  apply loop_inv in E as (g1 & eaten & g2 & Hadv & Href & Hfin).
  destruct (advance_spec cfg joystick g)
    as (m1' & s1' & head'' & g1' & eaten' & Hext' & Hhead' & Hcells1 & _ & Hadv' & Hiff & _
        & _ & Hcap1 & _ & _ & Hyes & Hno); try lia.
  rewrite Hext in Hext'. simplify_eq. rewrite Hhead in Hhead'. simplify_eq.
  rewrite Hadv in Hadv'. simplify_eq.
  pose proof (advance_length _ _ _ _ _ Hadv) as Hlen1.
  apply refill_snake in Href as [Hs2 _].
  apply finish_inv in Hfin as (collision & Hcoll & Hfin). rewrite Hs2 in Hcoll, Hfin.
  assert (Hbody : exists body, Snake.cells (snake g1') = body ++ [head''] /\
                    if eaten' then body = Snake.cells (snake g)
                    else body = drop 1 (Snake.cells (snake g))).
  { destruct eaten'.
    - destruct Hyes as (-> & _); [done|]. by exists (Snake.cells (snake g)).
    - destruct Hno as (_ & _ & tail & _ & Hcs); [done|]. rewrite Hcells1 in Hcs.
      destruct (Snake.cells (snake g)) as [|c l] eqn:Hold.
      + unfold Snake.cells in Hold. apply (f_equal length) in Hold.
        rewrite length_take in Hold. unfold Snake.getLength, Snake.capacity in *.
        simpl in Hold. lia.
      + simpl in Hcs. injection Hcs as _ Hcs. by exists l. }
  destruct Hbody as (body & Hcs1 & Hbody).
  rewrite (Snake_checkSelfCollision_cells _ body head'') in Hcoll
    by (done || (unfold Snake.getLength in *; destruct eaten'; lia)).
  injection Hcoll as Hcoll.
  assert (Hoff : head'' ∈ Food.cells (food g) -> head'' ∉ Snake.cells (snake g))
    by apply Hdis.
  assert (Hsub : head'' ∈ drop 1 (Snake.cells (snake g)) -> head'' ∈ Snake.cells (snake g)).
  { destruct (Snake.cells (snake g)); simpl; [done|]. apply list_elem_of_further. }
  assert (Hcollision : collision = true <-> head'' ∈ drop 1 (Snake.cells (snake g))).
  { rewrite <- Hcoll, bool_decide_eq_true. destruct eaten'; subst body; [|done].
    split; [|done]. intros Hin. exfalso. apply Hoff; [by apply Hiff | done]. }
  split; [|split; [|done]].
  - rewrite <- Hcollision. destruct o; destruct Hfin as (-> & _); split; done.
  - destruct o.
    + destruct Hfin as (_ & Hne & _). split; [done|]. intros [Hin Hmax]. exfalso.
      apply Hiff in Hin. subst eaten'. lia.
    + split; [done|]. intros [Hin _]. exfalso.
      destruct Hfin as (Htrue & _). apply Hcollision in Htrue.
      by apply Hoff; [|apply Hsub].
    + destruct Hfin as (_ & Hmax & _). split; [|done]. intros _.
      destruct eaten'; [|lia]. split; [by apply Hiff | lia].
Qed.

Lemma outcome_of_a_call_witness :
  exists (g' : Game),
    loop sketch 0 rnd_feast (512, 1023) game_before_bite = Ok (g', Lost) /\
    Point 7 4 ∈ drop 1 (Snake.cells (snake game_before_bite)).
Proof.
  destruct (loop sketch 0 rnd_feast (512, 1023) game_before_bite) as [[g' o]| |] eqn:E;
    [|by vm_compute in E..].
  destruct (Snake.extend (matrix game_before_bite) (snake game_before_bite)
              (steer (direct game_before_bite)
                     (readDirection sketch (512, 1023) (direct game_before_bite))))
    as [[m1 s1]| |] eqn:Hext; [|by vm_compute in Hext..].
  assert (Hhead : Snake.getHead s1 = Ok (Point 7 4))
    by (vm_compute in Hext; by simplify_eq).
  destruct (outcome_of_a_call sketch 0 rnd_feast (512, 1023) game_before_bite g' o m1 s1
              (Point 7 4) sketch_sane game_before_bite_boundary Hext Hhead E)
    as (Hlost & _ & _).
  assert (Hin : Point 7 4 ∈ drop 1 (Snake.cells (snake game_before_bite)))
    by apply list_elem_of_here.
  exists g'. split; [|exact Hin]. apply Hlost in Hin. by subst o.
Defined.

(** ** Placing a piece of food and eating it *)

(** X18: a call of [placeFood] for one piece (any [numToPlace <= 1]) that
    returns has appended one point, and [tryEat] at that point finds it and
    gives back the food cells and the count as they were before the call. *)
Theorem placeFood_then_tryEat_restores (fuel : nat) (rnd : nat -> point)
    (canvas canvas' : Matrix.t) (s : Snake.t) (f f' : Food.t)
    (numToPlace : Z) (n n' : nat) :
  0 <= Snake.m_currentLength s <= Snake.capacity s ->
  0 <= Food.m_foodCount f <= Food.capacity f ->
  numToPlace <= 1 ->
  Food.placeFood fuel rnd canvas s f numToPlace n = Ok (canvas', f', n') ->
  exists (p : point) (f'' : Food.t),
    Food.cells f' = Food.cells f ++ [p] /\
    Food.tryEat f' p = Ok (true, f'') /\
    Food.cells f'' = Food.cells f /\
    Food.getCount f'' = Food.getCount f.
Proof.
  intros Hs Hf Hn E.
  destruct (Food_placeFood_returns fuel rnd s Hs _ _ _ _ _ _ _ Hf E)
    as (added & Hcells & Hlen & Hcount & Hcap & Hle & _ & Hadded).
  destruct added as [|p [|q added]]; simpl in Hlen; [lia| |lia].
  destruct (Hadded p) as [[_ Hnew] _]; [apply list_elem_of_here|].
  assert (Hlenf : length (Food.cells f) = Z.to_nat (Food.m_foodCount f)).
  { unfold Food.cells, Food.capacity in *. rewrite length_take. lia. }
  destruct (Food_tryEat_spec f' p) as (b & f'' & Heat & Hiff & Hyes & _); [lia|].
  assert (b = true) as ->.
  { apply Hiff. rewrite Hcells. apply elem_of_app. right. apply list_elem_of_here. }
  destruct Hyes as (Hcount'' & _ & i & last & Hi & _ & _ & Harr); [done|].
  unfold Food.getCount in *.
  assert (i = Z.to_nat (Food.m_foodCount f)) as ->.
  { rewrite Hcells in Hi. destruct (decide (i < length (Food.cells f))%nat) as [Hlt|Hge].
    - rewrite lookup_app_l in Hi by done. exfalso. apply Hnew.
      by eapply list_elem_of_lookup_2.
    - apply lookup_lt_Some in Hi. rewrite length_app in Hi. simpl in Hi. lia. }
  exists p, f''. split; [done|]. split; [done|]. split; [|lia].
  unfold Food.cells at 1. rewrite Harr.
  replace (Food.m_foodCount f'') with (Food.m_foodCount f) by lia.
  rewrite take_insert_ge by lia.
  assert (Htake : take (Z.to_nat (Food.m_foodCount f)) (Food.m_foodPoints f')
                  = take (Z.to_nat (Food.m_foodCount f)) (Food.cells f')).
  { unfold Food.cells. rewrite take_take. f_equal. lia. }
  rewrite Htake, Hcells, <- Hlenf. by rewrite take_app_length.
Qed.

Lemma placeFood_then_tryEat_restores_witness :
  exists (p : point) (f'' : Food.t),
    Food.cells (Food_put food_single (rnd_demo 3%nat)) = Food.cells food_single ++ [p] /\
    Food.tryEat (Food_put food_single (rnd_demo 3%nat)) p = Ok (true, f'') /\
    Food.cells f'' = Food.cells food_single /\
    Food.getCount f'' = Food.getCount food_single.
Proof.
  apply (placeFood_then_tryEat_restores 1 rnd_demo blank
           (Matrix.setPixel blank (rnd_demo 3%nat) true) snake_at_edge food_single
           (Food_put food_single (rnd_demo 3%nat)) 1 3 4).
  - vm_compute. split; discriminate.
  - vm_compute. split; discriminate.
  - lia.
  - vm_compute. reflexivity.
Defined.
